(** * QueueCTL: the queue kernel, embedded from the Python sources

    The development follows [queuectl/db.py], [queuectl/scheduler.py],
    [queuectl/utils.py], [queuectl/worker.py], [queuectl/config.py] and the
    [enqueue] and [status] commands of [queuectl/cli.py].

    Modelling conventions.
    - The SQLite database is a record of three tables; a table is the list
      of its rows in rowid (insertion) order.  Every function of [db.py]
      commits before it returns, so a function is a map from the committed
      store before the call to the committed store after it.
    - A timestamp column holds the instant that SQLite's [datetime()] reads
      from the stored text, in whole seconds; SQL NULL is [None].  The clock
      ([now_timestamp()], [datetime('now')], [datetime.utcnow()]) is an
      argument [now] of the function that reads it.  Column [created_at] is
      the one column compared as the text it stores, so it keeps the clock
      reading with its microseconds.
    - A Python exception is a result: a function that can raise returns
      the text of the exception instead of its value, and a method of the
      worker returns the store it leaves together with that text.
    - [execute_command] and [uuid.uuid4()] are the environment: their results
      are arguments of the worker functions.
    - Configuration values are kept as the integers that [int(value)] reads
      from the stored strings.
    - Failures of SQLite itself (I/O, a busy database) are outside the
      model; the one constraint violation a caller can provoke, on INSERT
      into [jobs], is a result of [insert_job]. *)

From Stdlib Require Import ZArith List String Bool Lia DecimalString Sorted.
Import ListNotations.

Open Scope Z_scope.

(** ** Clock readings and exceptions *)

Definition Time := Z.

(** A reading of [datetime.utcnow()]: the whole seconds, and the
    [microsecond] field (0 to 999999). *)
Record Stamp : Type := mkStamp {
  whole_seconds : Time;
  microsecond : Z
}.

(** A reading that falls on the exact second. *)
Definition on_the_second (t : Z) : Stamp := mkStamp t 0.

Coercion on_the_second : Z >-> Stamp.

(** The order of the texts [now_timestamp()] makes of two readings.
    [isoformat()] prints "YYYY-MM-DDTHH:MM:SS", then ".ffffff" unless the
    microsecond is 0, and "Z" is appended.  Texts of different seconds
    compare as the seconds do; within one second "." sorts before "Z", so
    every text with a fraction sorts before the text without one, and two
    fractions compare as numbers. *)
Definition fraction_key (t : Stamp) : Z :=
  if microsecond t =? 0 then 1000000 else microsecond t.

Definition text_leb (a b : Stamp) : bool :=
  (whole_seconds a <? whole_seconds b)
  || ((whole_seconds a =? whole_seconds b)
      && (fraction_key a <=? fraction_key b)).

(** A call that may raise: the value returned, or [str(e)] of the
    exception [e]. *)
Inductive Raises (A : Type) : Type :=
  | Returns (value : A)
  | Raised (message : string).

Arguments Returns {A} value.
Arguments Raised {A} message.

(** ** Rows *)

(** The five values admitted by the CHECK constraint on [jobs.state]. *)
Inductive JobState : Type :=
  | pending
  | processing
  | completed
  | failed
  | dead.

Definition state_eqb (a b : JobState) : bool :=
  match a, b with
  | pending, pending | processing, processing | completed, completed
  | failed, failed | dead, dead => true
  | _, _ => false
  end.

(** A row of table [jobs], column by column as in [init_db]. *)
Record Job : Type := mkJob {
  id : string;
  command : string;
  state : JobState;
  attempts : Z;
  max_retries : Z;
  created_at : Stamp;
  updated_at : Time;
  retry_at : option Time;
  run_at : option Time;
  priority : Z;
  locked_by : option Z;
  locked_at : option Time;
  last_error : option string;
  output_path : option string;
  stdout_log : option string;
  stderr_log : option string;
  exit_code : option Z;
  completed_at : option Time
}.

(** A row of table [dlq]; [payload] is the job row that [json.dumps(job)]
    serialises. *)
Record DlqEntry : Type := mkDlq {
  dlq_id : string;
  dlq_job_id : string;
  dlq_moved_at : Time;
  dlq_reason : string;
  dlq_payload : Job
}.

Record Store : Type := mkStore {
  jobs : list Job;
  dlq : list DlqEntry;
  config : list (string * Z)
}.

Definition with_jobs (s : Store) (rows : list Job) : Store :=
  mkStore rows (dlq s) (config s).

Definition with_dlq (s : Store) (rows : list DlqEntry) : Store :=
  mkStore (jobs s) rows (config s).

(** ** Column assignments (the SET lists of the UPDATE statements) *)

Definition set_state (v : JobState) (j : Job) : Job :=
  mkJob (id j) (command j) v (attempts j) (max_retries j) (created_at j)
    (updated_at j) (retry_at j) (run_at j) (priority j) (locked_by j)
    (locked_at j) (last_error j) (output_path j) (stdout_log j)
    (stderr_log j) (exit_code j) (completed_at j).

Definition set_attempts (v : Z) (j : Job) : Job :=
  mkJob (id j) (command j) (state j) v (max_retries j) (created_at j)
    (updated_at j) (retry_at j) (run_at j) (priority j) (locked_by j)
    (locked_at j) (last_error j) (output_path j) (stdout_log j)
    (stderr_log j) (exit_code j) (completed_at j).

Definition set_updated_at (v : Time) (j : Job) : Job :=
  mkJob (id j) (command j) (state j) (attempts j) (max_retries j)
    (created_at j) v (retry_at j) (run_at j) (priority j) (locked_by j)
    (locked_at j) (last_error j) (output_path j) (stdout_log j)
    (stderr_log j) (exit_code j) (completed_at j).

Definition set_retry_at (v : option Time) (j : Job) : Job :=
  mkJob (id j) (command j) (state j) (attempts j) (max_retries j)
    (created_at j) (updated_at j) v (run_at j) (priority j) (locked_by j)
    (locked_at j) (last_error j) (output_path j) (stdout_log j)
    (stderr_log j) (exit_code j) (completed_at j).

Definition set_locked_by (v : option Z) (j : Job) : Job :=
  mkJob (id j) (command j) (state j) (attempts j) (max_retries j)
    (created_at j) (updated_at j) (retry_at j) (run_at j) (priority j) v
    (locked_at j) (last_error j) (output_path j) (stdout_log j)
    (stderr_log j) (exit_code j) (completed_at j).

Definition set_locked_at (v : option Time) (j : Job) : Job :=
  mkJob (id j) (command j) (state j) (attempts j) (max_retries j)
    (created_at j) (updated_at j) (retry_at j) (run_at j) (priority j)
    (locked_by j) v (last_error j) (output_path j) (stdout_log j)
    (stderr_log j) (exit_code j) (completed_at j).

Definition set_last_error (v : option string) (j : Job) : Job :=
  mkJob (id j) (command j) (state j) (attempts j) (max_retries j)
    (created_at j) (updated_at j) (retry_at j) (run_at j) (priority j)
    (locked_by j) (locked_at j) v (output_path j) (stdout_log j)
    (stderr_log j) (exit_code j) (completed_at j).

Definition set_output (out err : option string) (code : option Z) (j : Job)
  : Job :=
  mkJob (id j) (command j) (state j) (attempts j) (max_retries j)
    (created_at j) (updated_at j) (retry_at j) (run_at j) (priority j)
    (locked_by j) (locked_at j) (last_error j) (output_path j) out err code
    (completed_at j).

Definition set_completed_at (v : option Time) (j : Job) : Job :=
  mkJob (id j) (command j) (state j) (attempts j) (max_retries j)
    (created_at j) (updated_at j) (retry_at j) (run_at j) (priority j)
    (locked_by j) (locked_at j) (last_error j) (output_path j)
    (stdout_log j) (stderr_log j) (exit_code j) v.

(** ** SQL statements on a table *)

(** [UPDATE t SET set_ WHERE where_]: the rows, and [cursor.rowcount]. *)
Definition sql_update {R : Type} (where_ : R -> bool) (set_ : R -> R)
  (rows : list R) : list R :=
  map (fun r => if where_ r then set_ r else r) rows.

Definition sql_rowcount {R : Type} (where_ : R -> bool) (rows : list R) : Z :=
  Z.of_nat (List.length (filter where_ rows)).

(** [DELETE FROM t WHERE where_]. *)
Definition sql_delete {R : Type} (where_ : R -> bool) (rows : list R)
  : list R :=
  filter (fun r => negb (where_ r)) rows.

(** [SELECT * FROM t WHERE where_] followed by [fetchone()]. *)
Definition sql_fetchone {R : Type} (where_ : R -> bool) (rows : list R)
  : option R :=
  find where_ rows.

Definition id_is (job_id : string) (j : Job) : bool := String.eqb (id j) job_id.

Definition update_job (job_id : string) (set_ : Job -> Job) (s : Store)
  : Store :=
  with_jobs s (sql_update (id_is job_id) set_ (jobs s)).

(** ** [queuectl/config.py] *)

Definition DEFAULT_CONFIG : list (string * Z) :=
  [ ("max_retries"%string, 3); ("backoff_base"%string, 2);
    ("max_backoff_seconds"%string, 300); ("lock_lease_seconds"%string, 300);
    ("job_timeout_seconds"%string, 3600) ].

Fixpoint lookup (key : string) (tbl : list (string * Z)) : option Z :=
  match tbl with
  | [] => None
  | (k, v) :: tbl' => if String.eqb k key then Some v else lookup key tbl'
  end.

(** [Config.get]: the stored row if there is one, else the default. *)
Definition Config_get (key : string) (s : Store) : option Z :=
  match lookup key (config s) with
  | Some v => Some v
  | None => lookup key DEFAULT_CONFIG
  end.

(** [Config.get_int]: [0] when the key has neither a row nor a default. *)
Definition Config_get_int (key : string) (s : Store) : Z :=
  match Config_get key s with
  | Some v => v
  | None => 0
  end.

(** ** [queuectl/utils.py] *)

(** [base ** attempts] is the integer power for [0 <= attempts], the only
    values the [attempts] column takes. *)
Definition calculate_backoff (attempts base max_backoff : Z) : Z :=
  let backoff := base ^ attempts in
  Z.min backoff max_backoff.

(** [str(n)] of a Python integer. *)
Definition str (n : Z) : string := NilZero.string_of_int (Z.to_int n).

(** [timedelta(seconds=n)] for an integer [n].  The days of the normalised
    value are [n // 86400]; the constructor raises OverflowError when they
    do not fit a C int, or are outside [-999999999, 999999999]. *)
Definition timedelta (seconds : Z) : Raises Z :=
  let days := seconds / 86400 in
  if (days <? -2147483648) || (2147483647 <? days) then
    Raised "Python int too large to convert to C int"
  else if (days <? -999999999) || (999999999 <? days) then
    Raised ("days=" ++ str days ++ "; must have magnitude <= 999999999")
  else Returns seconds.

(** The first and the last second of [datetime]: 0001-01-01T00:00:00 and
    9999-12-31T23:59:59, counted from 1970-01-01T00:00:00. *)
Definition MINYEAR_START : Time := -62135596800.
Definition MAXYEAR_END : Time := 253402300799.

(** [t + delta] for a [datetime] [t] and a [timedelta] of [delta] whole
    seconds: OverflowError when the sum leaves the years 1 to 9999. *)
Definition datetime_add (t : Time) (delta : Z) : Raises Time :=
  if (MINYEAR_START <=? t + delta) && (t + delta <=? MAXYEAR_END) then
    Returns (t + delta)
  else Raised "date value out of range".

Definition calculate_retry_at (now : Time) (attempts base max_backoff : Z)
  : Raises Time :=
  let backoff_seconds := calculate_backoff attempts base max_backoff in
  match timedelta backoff_seconds with
  | Raised e => Raised e
  | Returns delta => datetime_add now delta
  end.

(** ** [queuectl/db.py] *)

Definition get_job (job_id : string) (s : Store) : option Job :=
  sql_fetchone (id_is job_id) (jobs s).

(** [insert_job].  The INSERT raises (and nothing is committed) when the
    primary key is taken or the CHECK on [priority] fails: [None]. *)
Definition insert_job (job_id command : string) (max_retries priority : Z)
  (run_at : option Time) (now : Stamp) (s : Store) : option Store :=
  match get_job job_id s with
  | Some _ => None
  | None =>
      if (0 <=? priority) && (priority <=? 10) then
        Some (with_jobs s
                (jobs s ++
                 [mkJob job_id command pending 0 max_retries now
                    (whole_seconds now) None run_at priority None None None
                    None None None None None]))
      else None
  end.

Definition update_job_state (job_id : string) (st : JobState) (now : Time)
  : Store -> Store :=
  update_job job_id (fun j => set_updated_at now (set_state st j)).

Definition increment_job_attempts (job_id : string) (now : Time)
  : Store -> Store :=
  update_job job_id (fun j => set_updated_at now (set_attempts (attempts j + 1) j)).

Definition update_job_error (job_id error : string) (now : Time)
  : Store -> Store :=
  update_job job_id (fun j => set_updated_at now (set_last_error (Some error) j)).

Definition set_job_retry_at (job_id : string) (retry : Time) (now : Time)
  : Store -> Store :=
  update_job job_id (fun j => set_updated_at now (set_retry_at (Some retry) j)).

Definition unlock_job (job_id : string) (now : Time) : Store -> Store :=
  update_job job_id
    (fun j => set_updated_at now (set_locked_at None (set_locked_by None j))).

Definition update_job_output (job_id stdout stderr : string) (code : Z)
  (now : Time) : Store -> Store :=
  update_job job_id
    (fun j => set_updated_at now
                (set_output (Some stdout) (Some stderr) (Some code) j)).

Definition update_job_completed_at (job_id : string) (now : Time)
  : Store -> Store :=
  update_job job_id (fun j => set_updated_at now (set_completed_at (Some now) j)).

(** [datetime('now', '-' || n || ' seconds')].  For a negative [n] the
    modifier reads ['--5 seconds'], which SQLite rejects: the result is
    NULL. *)
Definition datetime_now_minus (now : Time) (seconds : Z) : option Time :=
  if seconds <? 0 then None else Some (now - seconds).

(** The WHERE clause of the SELECT in [pick_pending_job]; a comparison with
    NULL is not true. *)
Definition pick_where (lock_seconds : Z) (now : Time) (j : Job) : bool :=
  state_eqb (state j) pending
  && match run_at j with
     | None => true
     | Some t => t <=? now
     end
  && match locked_by j with
     | None => true
     | Some _ =>
         match locked_at j, datetime_now_minus now lock_seconds with
         | Some t, Some limit => t <? limit
         | _, _ => false
         end
     end.

(** The three ORDER BY terms of [sort_clause], compared in turn;
    [created_at] is compared as the text [now_timestamp()] stored. *)
Definition urgency_class (j : Job) : Z := if priority j >? 0 then 0 else 1.

Definition sort_clause (a b : Job) : bool :=
  (urgency_class a <? urgency_class b)
  || ((urgency_class a =? urgency_class b)
      && ((priority b <? priority a)
          || ((priority a =? priority b)
              && text_leb (created_at a) (created_at b)))).

(** ORDER BY as a stable insertion sort of the selected rows. *)
Fixpoint order_insert (le : Job -> Job -> bool) (x : Job) (l : list Job)
  : list Job :=
  match l with
  | [] => [x]
  | y :: l' => if le x y then x :: l else y :: order_insert le x l'
  end.

Definition order_by (le : Job -> Job -> bool) (l : list Job) : list Job :=
  fold_right (order_insert le) [] l.

(** The lock taken by the UPDATE of [pick_pending_job]. *)
Definition claim_row (worker_pid : Z) (now : Time) (j : Job) : Job :=
  set_updated_at now
    (set_state processing
       (set_locked_at (Some now) (set_locked_by (Some worker_pid) j))).

Definition pick_pending_job (worker_pid lock_seconds : Z) (now : Time)
  (s : Store) : option Job * Store :=
  match hd_error (order_by sort_clause
                    (filter (pick_where lock_seconds now) (jobs s))) with
  | None => (None, s)
  | Some row =>
      let job_id := id row in
      let s' := update_job job_id (claim_row worker_pid now) s in
      (get_job job_id s', s')
  end.

(** [move_to_dlq].  The entry id [uuid4] is taken as fresh, so the INSERT
    into [dlq] goes through. *)
Definition move_to_dlq (job_id reason : string) (now : Time) (uuid4 : string)
  (s : Store) : Store :=
  match get_job job_id s with
  | None => s
  | Some job =>
      let s1 := with_dlq s (dlq s ++ [mkDlq uuid4 job_id now reason job]) in
      update_job job_id (fun j => set_updated_at now (set_state dead j)) s1
  end.

Definition dlq_for (job_id : string) (e : DlqEntry) : bool :=
  String.eqb (dlq_job_id e) job_id.

Definition get_dlq_job (job_id : string) (s : Store) : option DlqEntry :=
  sql_fetchone (dlq_for job_id) (dlq s).

Definition requeue_row (now : Time) (j : Job) : Job :=
  set_updated_at now
    (set_retry_at None
       (set_locked_at None
          (set_locked_by None (set_attempts 0 (set_state pending j))))).

Definition requeue_from_dlq (job_id : string) (now : Time) (s : Store)
  : bool * Store :=
  match get_dlq_job job_id s with
  | None => (false, s)
  | Some _ =>
      let s1 := update_job job_id (requeue_row now) s in
      (true, with_dlq s1 (sql_delete (dlq_for job_id) (dlq s1)))
  end.

(** ** [queuectl/scheduler.py] *)

Definition retry_ready (now : Time) (j : Job) : bool :=
  state_eqb (state j) pending
  && match retry_at j with
     | None => false
     | Some t => t <? now
     end.

Definition clear_lock (st : JobState) (j : Job) : Job :=
  set_state st (set_locked_at None (set_locked_by None j)).

Definition move_ready_jobs_to_pending (now : Time) (s : Store) : Z * Store :=
  (sql_rowcount (retry_ready now) (jobs s),
   with_jobs s (sql_update (retry_ready now) (clear_lock pending) (jobs s))).

Definition lock_expired (lock_seconds : Z) (now : Time) (j : Job) : bool :=
  state_eqb (state j) processing
  && match locked_at j, datetime_now_minus now lock_seconds with
     | Some t, Some limit => t <? limit
     | _, _ => false
     end.

Definition cleanup_expired_locks (lock_seconds : Z) (now : Time) (s : Store)
  : Z * Store :=
  (sql_rowcount (lock_expired lock_seconds now) (jobs s),
   with_jobs s
     (sql_update (lock_expired lock_seconds now) (clear_lock pending) (jobs s))).

(** ** [queuectl/worker.py] *)

(** What [execute_command] hands back: exit code, stdout, stderr. *)
Record ExecResult : Type := mkExec {
  res_exit_code : Z;
  res_stdout : string;
  res_stderr : string
}.

Definition _handle_job_success (job_id output : string) (now : Time)
  (s : Store) : Store :=
  let s := update_job_state job_id completed now s in
  let s := update_job_completed_at job_id now s in
  unlock_job job_id now s.

(** What a method of the worker leaves: the store, every statement run
    before an exception being committed, and [Some (str e)] when the method
    raised [e]. *)
Definition Outcome : Type := (Store * option string)%type.

(** [_handle_job_failure].  The [job] argument is overwritten by a fresh
    [get_job]; when the row is gone the subscript raises TypeError and the
    store is left as it is.  In the retry branch [calculate_retry_at] can
    raise: [last_error] is written by then, nothing else is. *)
Definition _handle_job_failure (job_id : string) (job : Job) (error : string)
  (now : Time) (uuid4 : string) (s : Store) : Outcome :=
  match get_job job_id s with
  | None => (s, Some "'NoneType' object is not subscriptable"%string)
  | Some job =>
      let attempts := attempts job in
      let max_retries := max_retries job in
      let s := update_job_error job_id error now s in
      if attempts <? max_retries then
        let backoff_base := Config_get_int "backoff_base" s in
        let max_backoff := Config_get_int "max_backoff_seconds" s in
        match calculate_retry_at now attempts backoff_base max_backoff with
        | Raised e => (s, Some e)
        | Returns retry_at =>
            let s := set_job_retry_at job_id retry_at now s in
            let s := update_job_state job_id pending now s in
            (unlock_job job_id now s, None)
        end
      else
        (move_to_dlq job_id ("Max retries exceeded: " ++ error)%string now
           uuid4 s, None)
  end.

Definition _handle_job_error (job_id error : string) (now : Time)
  (uuid4 : string) (s : Store) : Outcome :=
  match get_job job_id s with
  | Some job => _handle_job_failure job_id job error now uuid4 s
  | None => (s, None)
  end.

(** [_execute_job]: [t0] is the clock before the command runs, [t1] the
    clock once it has returned [res]. *)
Definition _execute_job (job : Job) (t0 t1 : Time) (res : ExecResult)
  (uuid4 : string) (s : Store) : Outcome :=
  let job_id := id job in
  let s := increment_job_attempts job_id t0 s in
  let s :=
    update_job_output job_id (res_stdout res) (res_stderr res)
      (res_exit_code res) t1 s in
  if res_exit_code res =? 0 then
    (_handle_job_success job_id (res_stdout res) t1 s, None)
  else
    let error_msg :=
      ("Exit code " ++ str (res_exit_code res) ++ ": " ++ res_stderr res)%string in
    _handle_job_failure job_id job error_msg t1 uuid4 s.

(** [_process_one_job]: an exception of [_execute_job] is caught and its
    text handed to [_handle_job_error], which runs after the command, at
    clock [t1], and may raise in turn.  [uuid4] is the one identifier drawn
    in an iteration: [move_to_dlq] is not reached twice, since an
    exception comes from the retry branch or from a missing row, and the
    handler then finds the same. *)
Definition _process_one_job (pid : Z) (t0 t1 : Time) (res : ExecResult)
  (uuid4 : string) (s : Store) : Outcome :=
  let lock_seconds := Config_get_int "lock_lease_seconds" s in
  match pick_pending_job pid lock_seconds t0 s with
  | (None, s') => (s', None)
  | (Some job, s') =>
      let job_id := id job in
      match _execute_job job t0 t1 res uuid4 s' with
      | (s'', None) => (s'', None)
      | (s'', Some e) => _handle_job_error job_id e t1 uuid4 s''
      end
  end.

(** What the environment supplies to one iteration. *)
Record Tick : Type := mkTick {
  tick_t0 : Time;
  tick_t1 : Time;
  tick_res : ExecResult;
  tick_uuid : string
}.

(** [Worker.run]: the loop body once per tick, until shutdown.  An
    exception that leaves [_process_one_job] is caught and logged, and the
    loop goes on from the store as the iteration left it. *)
Fixpoint run (pid : Z) (ticks : list Tick) (s : Store) : Store :=
  match ticks with
  | [] => s
  | k :: ticks' =>
      run pid ticks'
        (fst (_process_one_job pid (tick_t0 k) (tick_t1 k) (tick_res k)
                (tick_uuid k) s))
  end.

(** ** The rest of [queuectl/db.py] *)




(** [get_job_counts]: the dictionary built from the row counts grouped by
    state, one pair for every state that has a row. *)
Definition all_states : list JobState :=
  [pending; processing; completed; failed; dead].

Definition in_state (st : JobState) (j : Job) : bool := state_eqb (state j) st.

Definition get_job_counts (s : Store) : list (JobState * Z) :=
  filter (fun p => 0 <? snd p)
    (map (fun st => (st, sql_rowcount (in_state st) (jobs s))) all_states).

(** [counts.get(state, 0)]. *)
Fixpoint counts_get (st : JobState) (counts : list (JobState * Z)) : Z :=
  match counts with
  | [] => 0
  | (k, v) :: counts' => if state_eqb k st then v else counts_get st counts'
  end.

(** [delete_job].  Foreign keys are enforced on the connection, so deleting
    a row that a dead-letter entry refers to raises and deletes nothing:
    [None]. *)
Definition delete_job (job_id : string) (s : Store) : option Store :=
  if existsb (id_is job_id) (jobs s) && existsb (dlq_for job_id) (dlq s)
  then None
  else Some (with_jobs s (sql_delete (id_is job_id) (jobs s))).

(** The five columns selected by [get_job_output]. *)
Record JobOutput : Type := mkOutput {
  out_id : string;
  out_stdout_log : option string;
  out_stderr_log : option string;
  out_exit_code : option Z;
  out_completed_at : option Time
}.

Definition get_job_output (job_id : string) (s : Store) : option JobOutput :=
  option_map
    (fun j => mkOutput (id j) (stdout_log j) (stderr_log j) (exit_code j)
                (completed_at j))
    (get_job job_id s).

(** ** The rest of [queuectl/config.py] *)

Definition key_is (key : string) (r : string * Z) : bool :=
  String.eqb (fst r) key.

(** [Config.set]: UPDATE, and INSERT when no row was updated. *)
Definition Config_set (key : string) (value : Z) (s : Store) : Store :=
  let rows := sql_update (key_is key) (fun r => (fst r, value)) (config s) in
  if sql_rowcount (key_is key) (config s) =? 0 then
    mkStore (jobs s) (dlq s) (rows ++ [(key, value)])
  else mkStore (jobs s) (dlq s) rows.

(** [d[key] = value] on a dictionary kept as an association list. *)
Fixpoint dict_setitem (key : string) (value : Z) (d : list (string * Z))
  : list (string * Z) :=
  match d with
  | [] => [(key, value)]
  | (k, v) :: d' =>
      if String.eqb k key then (k, value) :: d'
      else (k, v) :: dict_setitem key value d'
  end.

(** [Config.get_all]: the rows as a dictionary, then every default whose
    key is not in it. *)
Definition Config_get_all (s : Store) : list (string * Z) :=
  let config :=
    fold_left (fun d row => dict_setitem (fst row) (snd row) d) (config s) [] in
  fold_left
    (fun d kv =>
       match lookup (fst kv) d with
       | Some _ => d
       | None => dict_setitem (fst kv) (snd kv) d
       end)
    DEFAULT_CONFIG config.

(** ** [queuectl/cli.py] *)



(** * Specification vocabulary *)

(** Under the primary key, the row with a given id is the row [get_job]
    returns. *)
Definition primary_key (s : Store) : Prop := NoDup (map id (jobs s)).

(** Eligibility in the words of the specification. *)
Definition eligible (lease_seconds : Z) (now : Time) (j : Job) : Prop :=
  state j = pending
  /\ (run_at j = None \/ exists t, run_at j = Some t /\ t <= now)
  /\ (locked_by j = None
      \/ exists t, locked_at j = Some t /\ t + lease_seconds < now).

(** The CHECK constraint on [jobs.priority]. *)
Definition check_priority (s : Store) : Prop :=
  forall j, In j (jobs s) -> 0 <= priority j <= 10.

(** A clock reading whose microsecond field is in range. *)
Definition stamp_ok (t : Stamp) : Prop := 0 <= microsecond t < 1000000.

(** The instant of a clock reading, in microseconds. *)
Definition instant (t : Stamp) : Z := 1000000 * whole_seconds t + microsecond t.

(** The order of the stored texts, as a proposition. *)
Definition text_le (a b : Stamp) : Prop :=
  whole_seconds a < whole_seconds b
  \/ (whole_seconds a = whole_seconds b /\ fraction_key a <= fraction_key b).

(** [claim_order a b]: in the order of the specification, [a] does not come
    after [b]; the tie-break is first in, first out. *)
Definition claim_order (a b : Job) : Prop :=
  (priority a > 0 /\ priority b = 0)
  \/ (((priority a > 0 /\ priority b > 0) \/ (priority a = 0 /\ priority b = 0))
      /\ (priority a > priority b
          \/ (priority a = priority b
              /\ instant (created_at a) <= instant (created_at b)))).

(** [stored_order a b]: the same order with the tie broken by the text
    stored in [created_at], which is what ORDER BY compares. *)
Definition stored_order (a b : Job) : Prop :=
  (priority a > 0 /\ priority b = 0)
  \/ (((priority a > 0 /\ priority b > 0) \/ (priority a = 0 /\ priority b = 0))
      /\ (priority a > priority b
          \/ (priority a = priority b
              /\ text_le (created_at a) (created_at b)))).

(** The one case in which the two orders can differ: [late] was enqueued
    within the second on which [early] was enqueued exactly. *)
Definition same_second_tie (early late : Job) : Prop :=
  priority early = priority late
  /\ whole_seconds (created_at early) = whole_seconds (created_at late)
  /\ microsecond (created_at early) = 0
  /\ microsecond (created_at late) <> 0.

(** [timedelta] and the sum with the clock both succeed. *)
Definition retry_date_representable (now : Time) (backoff_seconds : Z) : Prop :=
  -999999999 <= backoff_seconds / 86400 <= 999999999
  /\ MINYEAR_START <= now + backoff_seconds <= MAXYEAR_END.

(** A configuration and a clock for which every retry date is
    representable, whatever the number of attempts. *)
Definition retry_dates_fit (cfg : list (string * Z)) (now : Time) : Prop :=
  let s := mkStore [] [] cfg in
  0 <= Config_get_int "backoff_base" s
  /\ 0 <= Config_get_int "max_backoff_seconds" s
  /\ MINYEAR_START <= now
  /\ now + Config_get_int "max_backoff_seconds" s <= MAXYEAR_END.

(** The row as the three UPDATEs of [_handle_job_success] leave it. *)
Definition success_row (now : Time) (j : Job) : Job :=
  set_updated_at now
    (set_locked_at None
       (set_locked_by None
          (set_completed_at (Some now) (set_state completed j)))).

(** The row as the retry branch of [_handle_job_failure] leaves it. *)
Definition retry_row (now : Time) (error : string) (retry : Time) (j : Job)
  : Job :=
  set_updated_at now
    (set_locked_at None
       (set_locked_by None
          (set_state pending
             (set_retry_at (Some retry) (set_last_error (Some error) j))))).

(** The row as [_handle_job_failure] leaves it when its retry branch
    raises: [last_error] is all it wrote. *)
Definition raised_row (now : Time) (error : string) (j : Job) : Job :=
  set_updated_at now (set_last_error (Some error) j).

(** The row as the dead-letter branch of [_handle_job_failure] leaves it. *)
Definition dead_row (now : Time) (error : string) (j : Job) : Job :=
  set_updated_at now (set_state dead (set_last_error (Some error) j)).

(** The row once [_execute_job] has counted the attempt and stored the
    output of the command. *)
Definition ran_row (t0 t1 : Time) (res : ExecResult) (j : Job) : Job :=
  set_updated_at t1
    (set_output (Some (res_stdout res)) (Some (res_stderr res))
       (Some (res_exit_code res))
       (set_updated_at t0 (set_attempts (attempts j + 1) j))).

Definition error_msg (res : ExecResult) : string :=
  ("Exit code " ++ str (res_exit_code res) ++ ": " ++ res_stderr res)%string.

(** The rows that the promotion rewrites, in the words of the code. *)
Definition retry_passed (now : Time) (j : Job) : Prop :=
  state j = pending /\ exists t, retry_at j = Some t /\ t < now.

(** Number of dead-letter entries that refer to a job. *)
Definition dlq_count (job_id : string) (rows : list DlqEntry) : nat :=
  List.length (filter (dlq_for job_id) rows).

(** Every row has one dead-letter entry if it is dead and none otherwise,
    and every entry refers to a row (the foreign key of table [dlq]). *)
Definition dead_letter_invariant (s : Store) : Prop :=
  (forall j, In j (jobs s) ->
             dlq_count (id j) (dlq s)
             = if state_eqb (state j) dead then 1%nat else 0%nat)
  /\ (forall e, In e (dlq s) -> exists j, In j (jobs s) /\ id j = dlq_job_id e).

(** The operations that change the store, each run to completion. *)
Inductive Op : Type :=
  | op_insert_job (job_id command : string) (max_retries priority : Z)
      (run_at : option Time) (now : Stamp)
  | op_process_one_job (pid : Z) (k : Tick)
  | op_requeue_from_dlq (job_id : string) (now : Time)
  | op_move_ready_jobs_to_pending (now : Time)
  | op_cleanup_expired_locks (lock_seconds : Z) (now : Time).

Definition apply_op (o : Op) (s : Store) : Store :=
  match o with
  | op_insert_job job_id command max_retries priority run_at now =>
      match insert_job job_id command max_retries priority run_at now s with
      | Some s' => s'
      | None => s
      end
  | op_process_one_job pid k =>
      fst (_process_one_job pid (tick_t0 k) (tick_t1 k) (tick_res k)
             (tick_uuid k) s)
  | op_requeue_from_dlq job_id now => snd (requeue_from_dlq job_id now s)
  | op_move_ready_jobs_to_pending now => snd (move_ready_jobs_to_pending now s)
  | op_cleanup_expired_locks lock_seconds now =>
      snd (cleanup_expired_locks lock_seconds now s)
  end.

Definition exec (ops : list Op) (s : Store) : Store :=
  fold_left (fun s o => apply_op o s) ops s.

(** The worker iterations of a run whose retry dates are all
    representable. *)
Definition ops_retry_dates_fit (cfg : list (string * Z)) (ops : list Op)
  : Prop :=
  forall pid k, In (op_process_one_job pid k) ops ->
                retry_dates_fit cfg (tick_t1 k).

(** What holds of every row between two operations of a sequential run.  A
    row is left in [processing] only by an iteration whose retry date could
    not be computed. *)
Definition job_ok (j : Job) : Prop :=
  0 <= priority j <= 10
  /\ 0 <= attempts j <= Z.max 1 (max_retries j)
  /\ (state j = processing ->
      1 <= attempts j /\ attempts j < max_retries j
      /\ locked_by j <> None /\ locked_at j <> None)
  /\ state j <> failed
  /\ (state j = pending ->
      (attempts j = 0 \/ attempts j < max_retries j)
      /\ locked_by j = None /\ locked_at j = None)
  /\ (state j = completed ->
      1 <= attempts j /\ exit_code j = Some 0 /\ completed_at j <> None
      /\ locked_by j = None /\ locked_at j = None)
  /\ (state j = dead ->
      1 <= attempts j /\ max_retries j <= attempts j
      /\ locked_by j <> None /\ locked_at j <> None).

Definition store_ok (s : Store) : Prop :=
  primary_key s /\ forall j, In j (jobs s) -> job_ok j.

(** A processing row whose lease has run out. *)
Definition lock_stale (lock_seconds : Z) (now : Time) (j : Job) : Prop :=
  state j = processing
  /\ exists t, locked_at j = Some t /\ t + lock_seconds < now.

(** The primary key of table [config]. *)
Definition config_key (s : Store) : Prop := NoDup (map fst (config s)).

(** * Properties *)

Lemma state_eqb_eq (a b : JobState) : state_eqb a b = true <-> a = b.
Proof. destruct a, b; simpl; split; congruence. Qed.

(** ** Rows found after an UPDATE *)

Section UpdateFacts.

Variable set_ : Job -> Job.
Hypothesis set_keeps_id : forall j, id (set_ j) = id j.

Lemma find_sql_update (x y : string) (rows : list Job) :
  find (id_is x) (sql_update (id_is y) set_ rows)
  = option_map (fun j => if id_is y j then set_ j else j)
      (find (id_is x) rows).
Proof.
  induction rows as [|r rows IH]; simpl; [reflexivity|].
  assert (E : id_is x (if id_is y r then set_ r else r) = id_is x r).
  { unfold id_is. destruct (String.eqb (id r) y); [|reflexivity].
    now rewrite set_keeps_id. }
  rewrite E. destruct (id_is x r); [reflexivity | exact IH].
Qed.

Lemma get_job_update_same (x : string) (s : Store) :
  get_job x (update_job x set_ s) = option_map set_ (get_job x s).
Proof.
  unfold get_job, update_job, sql_fetchone; simpl.
  rewrite find_sql_update.
  destruct (find (id_is x) (jobs s)) as [j|] eqn:F; simpl; [|reflexivity].
  apply find_some in F. destruct F as [_ F]. now rewrite F.
Qed.

Lemma get_job_update_other (x y : string) (s : Store) :
  x <> y -> get_job x (update_job y set_ s) = get_job x s.
Proof.
  intros N. unfold get_job, update_job, sql_fetchone; simpl.
  rewrite find_sql_update.
  destruct (find (id_is x) (jobs s)) as [j|] eqn:F; simpl; [|reflexivity].
  apply find_some in F. destruct F as [_ F]. unfold id_is in *.
  apply String.eqb_eq in F. subst x.
  destruct (String.eqb (id j) y) eqn:E; [|reflexivity].
  apply String.eqb_eq in E. contradiction.
Qed.

Lemma in_sql_update (w : Job -> bool) (rows : list Job) (j' : Job) :
  In j' (sql_update w set_ rows) <->
  exists j, In j rows /\ j' = (if w j then set_ j else j).
Proof.
  unfold sql_update. rewrite in_map_iff. split.
  - intros (j & E & I). exists j. split; [exact I | now symmetry].
  - intros (j & I & E). exists j. split; [now symmetry | exact I].
Qed.

Lemma map_id_sql_update (w : Job -> bool) (rows : list Job) :
  map id (sql_update w set_ rows) = map id rows.
Proof.
  unfold sql_update. rewrite map_map. apply map_ext. intros j.
  destruct (w j); [apply set_keeps_id | reflexivity].
Qed.

End UpdateFacts.

Lemma get_job_none (job_id : string) (s : Store) :
  get_job job_id s = None <-> forall j, In j (jobs s) -> id j <> job_id.
Proof.
  unfold get_job, sql_fetchone. split.
  - intros F j I E. apply (find_none _ _ F) in I. unfold id_is in I.
    apply String.eqb_neq in I. contradiction.
  - intros H. destruct (find (id_is job_id) (jobs s)) as [j|] eqn:F;
      [|reflexivity].
    apply find_some in F. destruct F as [I E]. unfold id_is in E.
    apply String.eqb_eq in E. now apply H in I.
Qed.

Lemma get_job_some (job_id : string) (s : Store) (j : Job) :
  get_job job_id s = Some j -> In j (jobs s) /\ id j = job_id.
Proof.
  unfold get_job, sql_fetchone. intros F. apply find_some in F.
  destruct F as [I E]. split; [exact I|]. now apply String.eqb_eq in E.
Qed.

Lemma find_id_unique (rows : list Job) (j : Job) :
  NoDup (map id rows) -> In j rows -> find (id_is (id j)) rows = Some j.
Proof.
  induction rows as [|r rows IH]; simpl; [contradiction|].
  intros ND [E|I].
  - subst r. unfold id_is. now rewrite String.eqb_refl.
  - inversion ND as [|? ? NI ND']; subst.
    destruct (id_is (id j) r) eqn:E.
    + unfold id_is in E. apply String.eqb_eq in E. exfalso. apply NI.
      rewrite E. now apply in_map.
    + now apply IH.
Qed.

Lemma get_job_in (s : Store) (j : Job) :
  primary_key s -> In j (jobs s) -> get_job (id j) s = Some j.
Proof. intros ND I. now apply find_id_unique. Qed.

Lemma get_job_with_dlq (job_id : string) (s : Store) (rows : list DlqEntry) :
  get_job job_id (with_dlq s rows) = get_job job_id s.
Proof. reflexivity. Qed.

(** ** C10: [move_to_dlq] on an id without a row *)

(** C10. For every job id that has no row in table [jobs] and every reason,
    [move_to_dlq] returns the store it was given: no entry is added to
    [dlq] and no job row is touched. *)
Theorem move_to_dlq_unknown_job (s : Store) (job_id reason : string)
  (now : Time) (uuid4 : string) :
  (forall j, In j (jobs s) -> id j <> job_id) ->
  move_to_dlq job_id reason now uuid4 s = s.
Proof.
  intros H. apply get_job_none in H. unfold move_to_dlq. now rewrite H.
Qed.

Lemma move_to_dlq_unknown_job_witness :
  move_to_dlq "ghost" "why" 5 "u"
    (mkStore [mkJob "a" "true" pending 0 3 1 1 None None 0 None None None
                None None None None None] [] [])
  = mkStore [mkJob "a" "true" pending 0 3 1 1 None None 0 None None None
               None None None None None] [] [].
Proof.
  apply move_to_dlq_unknown_job. simpl. intros j [E|[]]. subst j. simpl.
  discriminate.
Defined.

(** ** C7: requeue from the dead-letter table *)

Lemma get_dlq_job_none (job_id : string) (s : Store) :
  get_dlq_job job_id s = None <->
  forall e, In e (dlq s) -> dlq_job_id e <> job_id.
Proof.
  unfold get_dlq_job, sql_fetchone. split.
  - intros F e I E. apply (find_none _ _ F) in I. unfold dlq_for in I.
    apply String.eqb_neq in I. contradiction.
  - intros H. destruct (find (dlq_for job_id) (dlq s)) as [e|] eqn:F;
      [|reflexivity].
    apply find_some in F. destruct F as [I E]. unfold dlq_for in E.
    apply String.eqb_eq in E. now apply H in I.
Qed.

Lemma in_dlq_delete (job_id : string) (rows : list DlqEntry) (e : DlqEntry) :
  In e (sql_delete (dlq_for job_id) rows) <->
  In e rows /\ dlq_job_id e <> job_id.
Proof.
  unfold sql_delete. rewrite filter_In. unfold dlq_for.
  rewrite negb_true_iff, String.eqb_neq. reflexivity.
Qed.

Lemma requeue_row_keeps_id (now : Time) (j : Job) :
  id (requeue_row now j) = id j.
Proof. reflexivity. Qed.

(** C7. When job [job_id] has a row and a dead-letter entry,
    [requeue_from_dlq] returns [True]; the row is then pending with
    [attempts = 0] and [retry_at], [locked_by], [locked_at] NULL; no entry of
    [dlq] refers to the job any more (entries of other jobs stay); and a
    second requeue returns [False] and leaves the store as it is.  The rows
    of other jobs are not touched. *)
Theorem requeue_from_dlq_round_trip (s : Store) (job_id : string)
  (now now' : Time) (e : DlqEntry) (j : Job) :
  get_dlq_job job_id s = Some e ->
  get_job job_id s = Some j ->
  let s' := snd (requeue_from_dlq job_id now s) in
  fst (requeue_from_dlq job_id now s) = true
  /\ (exists j',
        get_job job_id s' = Some j'
        /\ state j' = pending /\ attempts j' = 0 /\ retry_at j' = None
        /\ locked_by j' = None /\ locked_at j' = None)
  /\ (forall e', In e' (dlq s') <-> In e' (dlq s) /\ dlq_job_id e' <> job_id)
  /\ (forall x, x <> job_id -> get_job x s' = get_job x s)
  /\ requeue_from_dlq job_id now' s' = (false, s').
Proof.
  intros D G. unfold requeue_from_dlq. rewrite D. simpl.
  split; [reflexivity|]. split; [|split; [|split]].
  - exists (requeue_row now j).
    rewrite get_job_with_dlq.
    rewrite (get_job_update_same _ (requeue_row_keeps_id now)), G.
    simpl. repeat split; reflexivity.
  - intros e'. apply in_dlq_delete.
  - intros x N. rewrite get_job_with_dlq.
    now apply (get_job_update_other _ (requeue_row_keeps_id now)).
  - set (s2 := with_dlq _ _).
    assert (N : get_dlq_job job_id s2 = None).
    { apply get_dlq_job_none. intros e' I. subst s2. simpl in I.
      now apply in_dlq_delete in I. }
    now rewrite N.
Qed.

Lemma requeue_from_dlq_round_trip_witness :
  let j := mkJob "d" "false" dead 2 1 1 9 (Some 7) None 0 (Some 42) (Some 8)
             (Some "boom"%string) None None None (Some 1) None in
  let s := mkStore [j] [mkDlq "u" "d" 9 "Max retries exceeded: boom" j] [] in
  fst (requeue_from_dlq "d" 20 s) = true
  /\ (exists j',
        get_job "d" (snd (requeue_from_dlq "d" 20 s)) = Some j'
        /\ state j' = pending /\ attempts j' = 0 /\ retry_at j' = None
        /\ locked_by j' = None /\ locked_at j' = None)
  /\ (forall e', In e' (dlq (snd (requeue_from_dlq "d" 20 s))) <->
                 In e' (dlq s) /\ dlq_job_id e' <> "d"%string)
  /\ (forall x, x <> "d"%string ->
                get_job x (snd (requeue_from_dlq "d" 20 s)) = get_job x s)
  /\ requeue_from_dlq "d" 30 (snd (requeue_from_dlq "d" 20 s))
     = (false, snd (requeue_from_dlq "d" 20 s)).
Proof.
  intros j s.
  exact (requeue_from_dlq_round_trip s "d" 20 30
           (mkDlq "u" "d" 9 "Max retries exceeded: boom" j) j
           eq_refl eq_refl).
Defined.

(** ** C3: which rows can be claimed *)

Lemma pick_where_eligible (lease_seconds : Z) (now : Time) (j : Job) :
  0 <= lease_seconds ->
  pick_where lease_seconds now j = true <-> eligible lease_seconds now j.
Proof.
  intros L. unfold pick_where, eligible, datetime_now_minus.
  destruct (Z.ltb_spec lease_seconds 0) as [?|_]; [lia|].
  rewrite !andb_true_iff, state_eqb_eq.
  split.
  - intros [[S R] K]. split; [exact S|]. split.
    + destruct (run_at j) as [t|]; [|now left].
      right. exists t. split; [reflexivity|]. now apply Z.leb_le.
    + destruct (locked_by j) as [w|]; [|now left].
      right. destruct (locked_at j) as [t|]; [|discriminate].
      exists t. split; [reflexivity|]. apply Z.ltb_lt in K. lia.
  - intros (S & R & K). split; [split; [exact S|]|].
    + destruct R as [R|(t & R & Le)]; rewrite R; [reflexivity|].
      now apply Z.leb_le.
    + destruct K as [K|(t & K & Lt)].
      * now rewrite K.
      * rewrite K. destruct (locked_by j); [|reflexivity].
        apply Z.ltb_lt. lia.
Qed.

Lemma in_order_insert (le : Job -> Job -> bool) (x y : Job) (l : list Job) :
  In y (order_insert le x l) <-> y = x \/ In y l.
Proof.
  induction l as [|z l IH]; simpl.
  - intuition congruence.
  - destruct (le x z); simpl; [intuition congruence|].
    rewrite IH. intuition congruence.
Qed.

Lemma in_order_by (le : Job -> Job -> bool) (y : Job) (l : list Job) :
  In y (order_by le l) <-> In y l.
Proof.
  induction l as [|x l IH]; simpl; [reflexivity|].
  rewrite in_order_insert, IH. intuition congruence.
Qed.

Lemma hd_order_insert (le : Job -> Job -> bool) (x : Job) (l : list Job) :
  hd_error (order_insert le x l)
  = match hd_error l with
    | None => Some x
    | Some y => if le x y then Some x else Some y
    end.
Proof. destruct l as [|y l]; simpl; [reflexivity|]. now destruct (le x y). Qed.

Lemma hd_error_in {A : Type} (l : list A) (x : A) :
  hd_error l = Some x -> In x l.
Proof. destruct l; simpl; [discriminate|]. intros [= ->]. now left. Qed.

Lemma hd_error_none {A : Type} (l : list A) : hd_error l = None -> l = [].
Proof. destruct l; simpl; [reflexivity | discriminate]. Qed.

Lemma claim_row_keeps_id (pid : Z) (now : Time) (j : Job) :
  id (claim_row pid now j) = id j.
Proof. reflexivity. Qed.

(** What [pick_pending_job] does once the SELECT has produced [row]. *)
Lemma pick_pending_job_selected (s : Store) (pid lease_seconds : Z)
  (now : Time) (row : Job) :
  hd_error (order_by sort_clause
              (filter (pick_where lease_seconds now) (jobs s))) = Some row ->
  In row (jobs s) /\ pick_where lease_seconds now row = true
  /\ exists row0,
       get_job (id row) s = Some row0
       /\ pick_pending_job pid lease_seconds now s
          = (Some (claim_row pid now row0),
             update_job (id row) (claim_row pid now) s).
Proof.
  intros H. pose proof (hd_error_in _ _ H) as I.
  apply in_order_by, filter_In in I. destruct I as [I W].
  split; [exact I|]. split; [exact W|].
  destruct (get_job (id row) s) as [row0|] eqn:G.
  - exists row0. split; [reflexivity|]. unfold pick_pending_job.
    rewrite H. cbv zeta.
    rewrite (get_job_update_same _ (claim_row_keeps_id pid now)), G.
    reflexivity.
  - exfalso. rewrite get_job_none in G. now apply (G row).
Qed.



(** ** C4: which eligible row is claimed *)

Lemma urgency_class_cases (j : Job) :
  (urgency_class j = 0 /\ 0 < priority j)
  \/ (urgency_class j = 1 /\ priority j <= 0).
Proof.
  unfold urgency_class. rewrite Z.gtb_ltb.
  destruct (Z.ltb_spec 0 (priority j)); [left | right]; split; auto.
Qed.

Lemma text_leb_le (a b : Stamp) : text_leb a b = true <-> text_le a b.
Proof.
  unfold text_leb, text_le.
  rewrite orb_true_iff, andb_true_iff, Z.ltb_lt, Z.eqb_eq, Z.leb_le.
  reflexivity.
Qed.



(** Where the order of the texts and the order of the instants part. *)
Lemma text_le_instant (a b : Stamp) :
  stamp_ok a -> stamp_ok b -> text_le a b ->
  instant a <= instant b
  \/ (whole_seconds b = whole_seconds a /\ microsecond b = 0
      /\ microsecond a <> 0).
Proof.
  unfold stamp_ok, text_le, instant, fraction_key. intros A B.
  destruct (Z.eqb_spec (microsecond a) 0), (Z.eqb_spec (microsecond b) 0); lia.
Qed.

Lemma sort_clause_spec (a b : Job) :
  sort_clause a b = true <->
  urgency_class a < urgency_class b
  \/ (urgency_class a = urgency_class b
      /\ (priority b < priority a
          \/ (priority a = priority b
              /\ text_le (created_at a) (created_at b)))).
Proof.
  unfold sort_clause.
  rewrite !orb_true_iff, !andb_true_iff, !orb_true_iff, !andb_true_iff.
  rewrite !Z.ltb_lt, !Z.eqb_eq, text_leb_le. reflexivity.
Qed.

Lemma sort_clause_total (a b : Job) :
  sort_clause a b = true \/ sort_clause b a = true.
Proof. rewrite !sort_clause_spec. unfold text_le. lia. Qed.

Lemma sort_clause_trans (a b c : Job) :
  sort_clause a b = true -> sort_clause b c = true -> sort_clause a c = true.
Proof. rewrite !sort_clause_spec. unfold text_le. lia. Qed.

Lemma sort_clause_stored_order (a b : Job) :
  0 <= priority a -> 0 <= priority b ->
  sort_clause a b = true -> stored_order a b.
Proof.
  intros A B. rewrite sort_clause_spec. unfold stored_order, text_le.
  destruct (urgency_class_cases a) as [[-> ?]|[-> ?]],
           (urgency_class_cases b) as [[-> ?]|[-> ?]]; lia.
Qed.

Lemma stored_order_claim_order (a b : Job) :
  stamp_ok (created_at a) -> stamp_ok (created_at b) ->
  stored_order a b -> claim_order a b \/ same_second_tie b a.
Proof.
  intros A B. unfold stored_order, claim_order, same_second_tie.
  intros [H|[C [H|[E T]]]]; [left; now left | left; right; split; tauto|].
  destruct (text_le_instant _ _ A B T) as [L|(S & M & N)].
  - left. right. split; [exact C|]. right. now split.
  - right. repeat split; congruence.
Qed.

(** The head of a sorted selection is least among the selected rows. *)
Lemma hd_order_by_least (l : list Job) (m : Job) :
  hd_error (order_by sort_clause l) = Some m ->
  forall y, In y l -> sort_clause m y = true.
Proof.
  revert m. induction l as [|x l IH]; simpl; [discriminate|].
  intros m. rewrite hd_order_insert.
  assert (R : forall z, sort_clause z z = true).
  { intros z. destruct (sort_clause_total z z); assumption. }
  destruct (hd_error (order_by sort_clause l)) as [h|] eqn:H.
  - destruct (sort_clause x h) eqn:C; intros [= E] y [Y|I]; subst.
    + apply R.
    + apply (sort_clause_trans _ h); [exact C | now apply IH].
    + destruct (sort_clause_total m y); [assumption | congruence].
    + now apply IH.
  - intros [= E] y [Y|I]; subst.
    + apply R.
    + apply hd_error_none in H.
      apply (in_order_by sort_clause) in I. rewrite H in I. contradiction.
Qed.

(** C4. In a store that respects the primary key and the CHECK on
    [priority], the job a claim returns is the lock applied to a row that is
    eligible and that no eligible row precedes in the order ORDER BY
    computes: priority above zero before priority zero, then higher priority
    first, then smaller stored [created_at] text first.  Hence, when a
    priority-10 row and a priority-0 row are both eligible, the claim
    returns a priority-10 job, not the priority-0 one, whichever was
    enqueued first.  The tie-break is first in, first out except in one
    case: a row enqueued on an exact second (microsecond 0) loses against
    every row of its priority enqueued later within that second, so the
    oldest job is not the one claimed. *)
Theorem pick_pending_job_order (s s' : Store) (pid lease_seconds : Z)
  (now : Time) (job : Job) :
  primary_key s -> check_priority s ->
  pick_pending_job pid lease_seconds now s = (Some job, s') ->
  (exists row,
     In row (jobs s) /\ pick_where lease_seconds now row = true
     /\ job = claim_row pid now row
     /\ (forall j, In j (jobs s) -> pick_where lease_seconds now j = true ->
                   stored_order row j)
     /\ (forall j, In j (jobs s) -> pick_where lease_seconds now j = true ->
                   stamp_ok (created_at row) -> stamp_ok (created_at j) ->
                   claim_order row j \/ same_second_tie j row))
  /\ (forall p0 p10,
        In p0 (jobs s) -> pick_where lease_seconds now p0 = true ->
        In p10 (jobs s) -> pick_where lease_seconds now p10 = true ->
        priority p0 = 0 -> priority p10 = 10 ->
        priority job = 10 /\ id job <> id p0)
  /\ (forall early late,
        In early (jobs s) -> pick_where lease_seconds now early = true ->
        In late (jobs s) -> pick_where lease_seconds now late = true ->
        same_second_tie early late ->
        0 < microsecond (created_at late) < 1000000 ->
        instant (created_at early) < instant (created_at late)
        /\ id job <> id early).
Proof.
  intros PK CK P.
  destruct (hd_error (order_by sort_clause
              (filter (pick_where lease_seconds now) (jobs s))))
    as [row|] eqn:H;
    [|unfold pick_pending_job in P; rewrite H in P; discriminate].
  destruct (pick_pending_job_selected s pid lease_seconds now row H)
    as (I & W & row0 & G & P').
  rewrite P' in P. rewrite (get_job_in s row PK I) in G.
  injection G as <-. injection P as <- <-.
  assert (O : forall j, In j (jobs s) -> pick_where lease_seconds now j = true
                        -> stored_order row j).
  { intros j Ij Wj. apply sort_clause_stored_order.
    - apply (CK row I).
    - apply (CK j Ij).
    - apply (hd_order_by_least _ _ H). apply filter_In. now split. }
  split; [|split].
  - exists row. split; [exact I|]. split; [exact W|].
    split; [reflexivity|]. split; [exact O|].
    intros j Ij Wj A B. apply stored_order_claim_order; auto.
  - intros p0 p10 I0 W0 I10 W10 E0 E10.
    pose proof (O p10 I10 W10) as O10. pose proof (CK row I) as B.
    unfold stored_order in O10.
    assert (R : priority row = 10) by lia.
    split; [exact R|]. simpl. intros E.
    assert (row = p0).
    { pose proof (get_job_in s row PK I) as G1.
      pose proof (get_job_in s p0 PK I0) as G2.
      rewrite E in G1. congruence. }
    subst p0. lia.
  - intros early late Ie We Il Wl (Ep & Es & M0 & _) Ml. split.
    + unfold instant. lia.
    + simpl. intros E.
      assert (row = early).
      { pose proof (get_job_in s row PK I) as G1.
        pose proof (get_job_in s early PK Ie) as G2.
        rewrite E in G1. congruence. }
      subst early. pose proof (O late Il Wl) as Ol.
      unfold stored_order, text_le, fraction_key in Ol.
      rewrite M0 in Ol. simpl in Ol.
      destruct (Z.eqb_spec (microsecond (created_at late)) 0); lia.
Qed.

Lemma pick_pending_job_order_witness :
  let first := mkJob "first" "sleep 0" pending 0 3 (mkStamp 100 0) 100 None
                 None 0 None None None None None None None None in
  let second := mkJob "second" "sleep 0" pending 0 3 (mkStamp 100 500000) 100
                  None None 0 None None None None None None None None in
  let s := mkStore [first; second] [] [] in
  let job := claim_row 7 110 second in
  fst (pick_pending_job 7 300 110 s) = Some job
  /\ (exists row,
        In row (jobs s) /\ pick_where 300 110 row = true
        /\ job = claim_row 7 110 row
        /\ (forall j, In j (jobs s) -> pick_where 300 110 j = true ->
                      stored_order row j)
        /\ (forall j, In j (jobs s) -> pick_where 300 110 j = true ->
                      stamp_ok (created_at row) -> stamp_ok (created_at j) ->
                      claim_order row j \/ same_second_tie j row))
  /\ (forall a b,
        In a (jobs s) -> pick_where 300 110 a = true ->
        In b (jobs s) -> pick_where 300 110 b = true ->
        priority a = 0 -> priority b = 10 ->
        priority job = 10 /\ id job <> id a)
  /\ (forall early late,
        In early (jobs s) -> pick_where 300 110 early = true ->
        In late (jobs s) -> pick_where 300 110 late = true ->
        same_second_tie early late ->
        0 < microsecond (created_at late) < 1000000 ->
        instant (created_at early) < instant (created_at late)
        /\ id job <> id early).
Proof.
  intros first second s job. split; [vm_compute; reflexivity|].
  apply (pick_pending_job_order s
           (update_job "second" (claim_row 7 110) s) 7 300 110 job).
  - unfold primary_key. simpl. constructor.
    + simpl. intros [E|[]]. discriminate E.
    + constructor; [intros []|constructor].
  - intros j [<-|[<-|[]]]; simpl; lia.
  - vm_compute. reflexivity.
Defined.

Lemma Config_get_int_update_job (key x : string) (F : Job -> Job)
  (s : Store) :
  Config_get_int key (update_job x F s) = Config_get_int key s.
Proof. reflexivity. Qed.

Lemma raises_cases {A : Type} (x : Raises A) :
  (exists v, x = Returns v) \/ (exists e, x = Raised e).
Proof. destruct x as [v|e]; [left; now exists v | right; now exists e]. Qed.

(** ** When the retry date can be computed *)

Lemma calculate_retry_at_spec (now : Time) (attempts base max_backoff : Z)
  (r : Time) :
  calculate_retry_at now attempts base max_backoff = Returns r <->
  retry_date_representable now (calculate_backoff attempts base max_backoff)
  /\ r = now + calculate_backoff attempts base max_backoff.
Proof.
  unfold calculate_retry_at, timedelta, datetime_add, retry_date_representable.
  set (b := calculate_backoff attempts base max_backoff). cbv zeta.
  unfold MINYEAR_START, MAXYEAR_END.
  destruct (Z.ltb_spec (b / 86400) (-2147483648)),
           (Z.ltb_spec 2147483647 (b / 86400)),
           (Z.ltb_spec (b / 86400) (-999999999)),
           (Z.ltb_spec 999999999 (b / 86400)); simpl;
    destruct (Z.leb_spec (-62135596800) (now + b)),
             (Z.leb_spec (now + b) 253402300799); simpl;
    (split;
     [intros E; first [discriminate E | injection E as <-; repeat split; lia]
     |intros [[[? ?] [? ?]] ->]; first [reflexivity | exfalso; lia]]).
Qed.

Lemma calculate_retry_at_returns (now : Time) (attempts base max_backoff : Z) :
  retry_date_representable now (calculate_backoff attempts base max_backoff) ->
  calculate_retry_at now attempts base max_backoff
  = Returns (now + calculate_backoff attempts base max_backoff).
Proof. intros R. apply calculate_retry_at_spec. now split. Qed.

Lemma calculate_retry_at_raised (now : Time) (attempts base max_backoff : Z) :
  ~ retry_date_representable now
      (calculate_backoff attempts base max_backoff) ->
  exists e, calculate_retry_at now attempts base max_backoff = Raised e.
Proof.
  intros N.
  destruct (calculate_retry_at now attempts base max_backoff) as [r|e] eqn:E.
  - apply calculate_retry_at_spec in E. now destruct E.
  - now exists e.
Qed.

(** With a base and a cap of at least zero the backoff lies between zero
    and the cap, so the retry date is representable as soon as the clock
    plus the cap is. *)
Lemma retry_dates_fit_representable (s : Store) (now : Time) (attempts : Z) :
  retry_dates_fit (config s) now ->
  retry_date_representable now
    (calculate_backoff attempts (Config_get_int "backoff_base" s)
       (Config_get_int "max_backoff_seconds" s)).
Proof.
  unfold retry_dates_fit. cbv zeta.
  change (Config_get_int "backoff_base" (mkStore [] [] (config s)))
    with (Config_get_int "backoff_base" s).
  change (Config_get_int "max_backoff_seconds" (mkStore [] [] (config s)))
    with (Config_get_int "max_backoff_seconds" s).
  set (base := Config_get_int "backoff_base" s).
  set (cap := Config_get_int "max_backoff_seconds" s).
  unfold MINYEAR_START, MAXYEAR_END. intros (B & C & L & U).
  unfold retry_date_representable, calculate_backoff, MINYEAR_START,
    MAXYEAR_END.
  assert (P : 0 <= base ^ attempts) by (apply Z.pow_nonneg; exact B).
  set (b := Z.min (base ^ attempts) cap).
  assert (Bb : 0 <= b <= cap) by (subst b; lia).
  assert (D0 : 0 <= b / 86400) by (apply Z.div_pos; lia).
  assert (D1 : b / 86400 <= 315537897599 / 86400)
    by (apply Z.div_le_mono; lia).
  change (315537897599 / 86400) with 3652058 in D1. lia.
Qed.

(** ** The row of a job along one execution *)

Ltac get_job_updates :=
  unfold update_job_state, increment_job_attempts, update_job_error,
    set_job_retry_at, unlock_job, update_job_output, update_job_completed_at;
  repeat rewrite get_job_update_same by (intros; reflexivity).

Lemma update_job_compose (x : string) (f g : Job -> Job) (s : Store) :
  (forall j, id (g j) = id j) ->
  update_job x f (update_job x g s) = update_job x (fun j => f (g j)) s.
Proof.
  intros K. unfold update_job, with_jobs, sql_update; simpl. f_equal.
  rewrite map_map. apply map_ext. intros r. unfold id_is.
  destruct (String.eqb (id r) x) eqn:E.
  - now rewrite K, E.
  - now rewrite E.
Qed.

Lemma update_job_with_dlq (x : string) (f : Job -> Job) (s : Store)
  (rows : list DlqEntry) :
  update_job x f (with_dlq s rows) = with_dlq (update_job x f s) rows.
Proof. reflexivity. Qed.

Ltac fold_updates :=
  unfold update_job_state, increment_job_attempts, update_job_error,
    set_job_retry_at, unlock_job, update_job_output, update_job_completed_at;
  repeat rewrite update_job_compose by (intros; reflexivity).

Lemma get_job_move_to_dlq (job_id reason : string) (now : Time)
  (uuid4 : string) (s : Store) :
  get_job job_id (move_to_dlq job_id reason now uuid4 s)
  = option_map (fun j => set_updated_at now (set_state dead j))
      (get_job job_id s).
Proof.
  unfold move_to_dlq. destruct (get_job job_id s) as [j|] eqn:G.
  - rewrite get_job_update_same by (intros; reflexivity).
    now rewrite get_job_with_dlq, G.
  - now rewrite G.
Qed.

(** [_handle_job_failure] on the row [j] of the job, branch by branch, as
    one UPDATE of the rows of the job. *)
Lemma handle_job_failure_retry (job_id : string) (job j : Job)
  (error : string) (now : Time) (uuid4 : string) (s : Store) (retry : Time) :
  get_job job_id s = Some j -> attempts j < max_retries j ->
  calculate_retry_at now (attempts j) (Config_get_int "backoff_base" s)
    (Config_get_int "max_backoff_seconds" s) = Returns retry ->
  _handle_job_failure job_id job error now uuid4 s
  = (update_job job_id (retry_row now error retry) s, None).
Proof.
  intros G L R. unfold _handle_job_failure. rewrite G.
  apply Z.ltb_lt in L. rewrite L. cbv zeta. unfold update_job_error at 1 2.
  rewrite !Config_get_int_update_job, R. fold_updates. reflexivity.
Qed.

Lemma handle_job_failure_raised (job_id : string) (job j : Job)
  (error : string) (now : Time) (uuid4 : string) (s : Store) (e : string) :
  get_job job_id s = Some j -> attempts j < max_retries j ->
  calculate_retry_at now (attempts j) (Config_get_int "backoff_base" s)
    (Config_get_int "max_backoff_seconds" s) = Raised e ->
  _handle_job_failure job_id job error now uuid4 s
  = (update_job job_id (raised_row now error) s, Some e).
Proof.
  intros G L R. unfold _handle_job_failure. rewrite G.
  apply Z.ltb_lt in L. rewrite L. cbv zeta. unfold update_job_error at 1 2.
  rewrite !Config_get_int_update_job, R. reflexivity.
Qed.

Lemma handle_job_failure_dead (job_id : string) (job j : Job)
  (error : string) (now : Time) (uuid4 : string) (s : Store) :
  get_job job_id s = Some j -> max_retries j <= attempts j ->
  _handle_job_failure job_id job error now uuid4 s
  = (with_dlq (update_job job_id (dead_row now error) s)
       (dlq s ++ [mkDlq uuid4 job_id now
                    ("Max retries exceeded: " ++ error)%string
                    (raised_row now error j)]), None).
Proof.
  intros G L. unfold _handle_job_failure. rewrite G.
  assert (F : (attempts j <? max_retries j) = false) by (apply Z.ltb_ge; lia).
  rewrite F. cbv zeta. unfold move_to_dlq.
  assert (G1 : get_job job_id (update_job_error job_id error now s)
               = Some (raised_row now error j)).
  { get_job_updates. now rewrite G. }
  rewrite G1. rewrite update_job_with_dlq. fold_updates. reflexivity.
Qed.

(** [_execute_job] as one UPDATE of the rows of the job, outcome by
    outcome; [j] is the row of the job when the execution starts. *)
Lemma execute_job_store (job j : Job) (t0 t1 : Time) (res : ExecResult)
  (uuid4 : string) (s : Store) :
  get_job (id job) s = Some j ->
  let o := _execute_job job t0 t1 res uuid4 s in
  let retry :=
    calculate_retry_at t1 (attempts j + 1) (Config_get_int "backoff_base" s)
      (Config_get_int "max_backoff_seconds" s) in
  (res_exit_code res = 0 ->
   o = (update_job (id job)
          (fun r => success_row t1 (ran_row t0 t1 res r)) s, None))
  /\ (res_exit_code res <> 0 -> attempts j + 1 < max_retries j ->
      forall rt, retry = Returns rt ->
      o = (update_job (id job)
             (fun r => retry_row t1 (error_msg res) rt (ran_row t0 t1 res r))
             s, None))
  /\ (res_exit_code res <> 0 -> attempts j + 1 < max_retries j ->
      forall e, retry = Raised e ->
      o = (update_job (id job)
             (fun r => raised_row t1 (error_msg res) (ran_row t0 t1 res r)) s,
           Some e))
  /\ (res_exit_code res <> 0 -> max_retries j <= attempts j + 1 ->
      o = (with_dlq
             (update_job (id job)
                (fun r => dead_row t1 (error_msg res) (ran_row t0 t1 res r)) s)
             (dlq s ++ [mkDlq uuid4 (id job) t1
                          ("Max retries exceeded: " ++ error_msg res)%string
                          (raised_row t1 (error_msg res)
                             (ran_row t0 t1 res j))]), None)).
Proof.
  intros G. cbv zeta. unfold _execute_job. cbv zeta.
  set (s2 := update_job_output _ _ _ _ _ _).
  assert (G2 : get_job (id job) s2 = Some (ran_row t0 t1 res j)).
  { subst s2. get_job_updates. now rewrite G. }
  assert (S2 : s2 = update_job (id job) (ran_row t0 t1 res) s).
  { subst s2. fold_updates. reflexivity. }
  fold (error_msg res).
  split; [|split; [|split]].
  - intros E. rewrite E, Z.eqb_refl. unfold _handle_job_success.
    rewrite S2. fold_updates. reflexivity.
  - intros E L rt R. apply Z.eqb_neq in E. rewrite E.
    rewrite (handle_job_failure_retry (id job) job _ (error_msg res) t1 uuid4
               s2 rt G2 L) by (rewrite S2; exact R).
    rewrite S2. fold_updates. reflexivity.
  - intros E L e R. apply Z.eqb_neq in E. rewrite E.
    rewrite (handle_job_failure_raised (id job) job _ (error_msg res) t1 uuid4
               s2 e G2 L) by (rewrite S2; exact R).
    rewrite S2. fold_updates. reflexivity.
  - intros E L. apply Z.eqb_neq in E. rewrite E.
    rewrite (handle_job_failure_dead (id job) job _ (error_msg res) t1 uuid4
               s2 G2 L).
    rewrite S2. fold_updates. reflexivity.
Qed.

(** The same, read on the row of the job. *)
Lemma execute_job_outcome (job j : Job) (t0 t1 : Time) (res : ExecResult)
  (uuid4 : string) (s : Store) :
  get_job (id job) s = Some j ->
  let o := _execute_job job t0 t1 res uuid4 s in
  let r := ran_row t0 t1 res j in
  let retry :=
    calculate_retry_at t1 (attempts j + 1) (Config_get_int "backoff_base" s)
      (Config_get_int "max_backoff_seconds" s) in
  (res_exit_code res = 0 ->
   get_job (id job) (fst o) = Some (success_row t1 r)
   /\ dlq (fst o) = dlq s /\ snd o = None)
  /\ (res_exit_code res <> 0 -> attempts j + 1 < max_retries j ->
      forall rt, retry = Returns rt ->
      get_job (id job) (fst o) = Some (retry_row t1 (error_msg res) rt r)
      /\ dlq (fst o) = dlq s /\ snd o = None)
  /\ (res_exit_code res <> 0 -> attempts j + 1 < max_retries j ->
      forall e, retry = Raised e ->
      get_job (id job) (fst o) = Some (raised_row t1 (error_msg res) r)
      /\ dlq (fst o) = dlq s /\ snd o = Some e)
  /\ (res_exit_code res <> 0 -> max_retries j <= attempts j + 1 ->
      get_job (id job) (fst o) = Some (dead_row t1 (error_msg res) r)
      /\ dlq (fst o)
         = dlq s ++ [mkDlq uuid4 (id job) t1
                       ("Max retries exceeded: " ++ error_msg res)%string
                       (raised_row t1 (error_msg res) r)]
      /\ snd o = None).
Proof.
  intros G. cbv zeta.
  destruct (execute_job_store job j t0 t1 res uuid4 s G) as (A & B & C & D).
  split; [|split; [|split]].
  - intros E. rewrite (A E). simpl fst.
    rewrite get_job_update_same by (intros; reflexivity).
    rewrite G. repeat split.
  - intros E L rt R. rewrite (B E L rt R). simpl fst.
    rewrite get_job_update_same by (intros; reflexivity).
    rewrite G. repeat split.
  - intros E L e R. rewrite (C E L e R). simpl fst.
    rewrite get_job_update_same by (intros; reflexivity).
    rewrite G. repeat split.
  - intros E L. rewrite (D E L). simpl fst. rewrite get_job_with_dlq.
    rewrite get_job_update_same by (intros; reflexivity).
    rewrite G. repeat split.
Qed.

(** The job run and, when the execution raised, the handler of
    [_process_one_job] after it: the same exception comes back, and of the
    handler only [last_error] stays. *)
Lemma execute_and_handle (job j : Job) (t0 t1 : Time) (res : ExecResult)
  (uuid4 : string) (s : Store) :
  get_job (id job) s = Some j ->
  let o :=
    match _execute_job job t0 t1 res uuid4 s with
    | (s'', None) => (s'', None)
    | (s'', Some e) => _handle_job_error (id job) e t1 uuid4 s''
    end in
  let retry :=
    calculate_retry_at t1 (attempts j + 1) (Config_get_int "backoff_base" s)
      (Config_get_int "max_backoff_seconds" s) in
  (res_exit_code res = 0 ->
   o = (update_job (id job)
          (fun r => success_row t1 (ran_row t0 t1 res r)) s, None))
  /\ (res_exit_code res <> 0 -> attempts j + 1 < max_retries j ->
      forall rt, retry = Returns rt ->
      o = (update_job (id job)
             (fun r => retry_row t1 (error_msg res) rt (ran_row t0 t1 res r))
             s, None))
  /\ (res_exit_code res <> 0 -> attempts j + 1 < max_retries j ->
      forall e, retry = Raised e ->
      o = (update_job (id job)
             (fun r => raised_row t1 e
                         (raised_row t1 (error_msg res) (ran_row t0 t1 res r)))
             s, Some e))
  /\ (res_exit_code res <> 0 -> max_retries j <= attempts j + 1 ->
      o = (with_dlq
             (update_job (id job)
                (fun r => dead_row t1 (error_msg res) (ran_row t0 t1 res r)) s)
             (dlq s ++ [mkDlq uuid4 (id job) t1
                          ("Max retries exceeded: " ++ error_msg res)%string
                          (raised_row t1 (error_msg res)
                             (ran_row t0 t1 res j))]), None)).
Proof.
  intros G. cbv zeta.
  destruct (execute_job_store job j t0 t1 res uuid4 s G) as (A & B & C & D).
  split; [|split; [|split]].
  - intros E. now rewrite (A E).
  - intros E L rt R. now rewrite (B E L rt R).
  - intros E L e R. rewrite (C E L e R).
    set (s3 := update_job (id job) _ s).
    assert (G3 : get_job (id job) s3
                 = Some (raised_row t1 (error_msg res) (ran_row t0 t1 res j))).
    { subst s3. rewrite get_job_update_same by (intros; reflexivity).
      now rewrite G. }
    unfold _handle_job_error. rewrite G3.
    rewrite (handle_job_failure_raised (id job) _ _ e t1 uuid4 s3 e G3 L)
      by exact R.
    subst s3. fold_updates. reflexivity.
  - intros E L. now rewrite (D E L).
Qed.

Lemma pick_where_pending (lease_seconds : Z) (now : Time) (j : Job) :
  pick_where lease_seconds now j = true -> state j = pending.
Proof.
  unfold pick_where. rewrite !andb_true_iff. intros [[S _] _].
  now apply state_eqb_eq.
Qed.

(** A claim under the primary key: the selected row and the two results. *)
Lemma pick_pending_job_claims (s s' : Store) (pid lease_seconds : Z)
  (now : Time) (job : Job) :
  primary_key s ->
  pick_pending_job pid lease_seconds now s = (Some job, s') ->
  exists row,
    In row (jobs s) /\ pick_where lease_seconds now row = true
    /\ job = claim_row pid now row
    /\ s' = update_job (id row) (claim_row pid now) s
    /\ get_job (id job) s' = Some job.
Proof.
  intros PK P.
  destruct (hd_error (order_by sort_clause
              (filter (pick_where lease_seconds now) (jobs s))))
    as [row|] eqn:H;
    [|unfold pick_pending_job in P; rewrite H in P; discriminate].
  destruct (pick_pending_job_selected s pid lease_seconds now row H)
    as (I & W & row0 & G & P').
  rewrite P' in P. rewrite (get_job_in s row PK I) in G.
  injection G as <-. injection P as <- <-.
  exists row. repeat split; try assumption. simpl.
  rewrite (get_job_update_same _ (claim_row_keeps_id pid now)).
  now rewrite (get_job_in s row PK I).
Qed.

(** ** C5: where the attempt is counted *)

(** C5, as stated, fails: the job a claim returns carries the attempts of
    the row it locked, not that number plus one. *)
Lemma pick_pending_job_attempts_counterexample :
  let row := mkJob "a" "true" pending 0 3 1 1 None None 0 None None None
               None None None None None in
  exists job,
    fst (pick_pending_job 7 300 10 (mkStore [row] [] [])) = Some job
    /\ attempts job = attempts row
    /\ attempts job <> attempts row + 1.
Proof.
  simpl. eexists. split; [reflexivity|]. simpl. split; [reflexivity|lia].
Qed.

(** C5, amended. Under the primary key, a claim takes a pending row to
    [processing], sets [locked_by] to the worker and [locked_at] and
    [updated_at] to now, in one UPDATE of that row, and leaves [attempts] as
    it was: the job returned carries the old count.  The worker adds exactly
    one to [attempts] afterwards, in [_execute_job], whatever the command
    returns. *)
Theorem pick_pending_job_claim_transition (s s' : Store)
  (pid lease_seconds : Z) (now : Time) (job : Job) :
  primary_key s ->
  pick_pending_job pid lease_seconds now s = (Some job, s') ->
  exists row,
    In row (jobs s) /\ state row = pending
    /\ get_job (id job) s' = Some job
    /\ job = claim_row pid now row
    /\ state job = processing
    /\ locked_by job = Some pid /\ locked_at job = Some now
    /\ updated_at job = now
    /\ attempts job = attempts row
    /\ forall t1 res uuid4,
         exists j',
           get_job (id job) (fst (_execute_job job now t1 res uuid4 s'))
           = Some j'
           /\ attempts j' = attempts row + 1.
Proof.
  intros PK P.
  destruct (pick_pending_job_claims s s' pid lease_seconds now job PK P)
    as (row & I & W & E & _ & G).
  exists row. split; [exact I|]. split; [now apply pick_where_pending in W|].
  split; [exact G|]. split; [exact E|]. subst job.
  repeat (split; [reflexivity|]).
  intros t1 res uuid4.
  destruct (calculate_retry_at t1 (attempts (claim_row pid now row) + 1)
              (Config_get_int "backoff_base" s')
              (Config_get_int "max_backoff_seconds" s')) as [rt|e] eqn:R;
    destruct (execute_job_outcome _ _ now t1 res uuid4 s' G)
      as (A & B & C & D);
    (destruct (Z.eq_dec (res_exit_code res) 0) as [Z0|NZ];
     [destruct (A Z0) as [-> _]; eexists; split; reflexivity|]);
    (destruct (Z_lt_le_dec (attempts (claim_row pid now row) + 1)
                 (max_retries (claim_row pid now row))) as [L|L];
     [|destruct (D NZ L) as [-> _]; eexists; split; reflexivity]).
  - destruct (B NZ L rt R) as [-> _]. eexists. split; reflexivity.
  - destruct (C NZ L e R) as [-> _]. eexists. split; reflexivity.
Qed.

Lemma pick_pending_job_claim_transition_witness :
  let row := mkJob "a" "true" pending 0 3 1 1 None None 0 None None None
               None None None None None in
  let s := mkStore [row] [] [] in
  let job := claim_row 7 10 row in
  let s' := update_job "a" (claim_row 7 10) s in
  exists row,
    In row (jobs s) /\ state row = pending
    /\ get_job (id job) s' = Some job
    /\ job = claim_row 7 10 row
    /\ state job = processing
    /\ locked_by job = Some 7 /\ locked_at job = Some 10
    /\ updated_at job = 10
    /\ attempts job = attempts row
    /\ forall t1 res uuid4,
         exists j',
           get_job (id job) (fst (_execute_job job 10 t1 res uuid4 s'))
           = Some j'
           /\ attempts j' = attempts row + 1.
Proof.
  intros row s job s'.
  apply (pick_pending_job_claim_transition s s' 7 300 10 job).
  - unfold primary_key. simpl. constructor; [intros []|constructor].
  - reflexivity.
Defined.

(** ** C6: backoff and [retry_at] *)




(** ** One iteration of the worker loop, summarised *)

Ltac process_effect_alive I W :=
  cbn [fst]; rewrite update_job_compose by (intros; reflexivity);
  eexists; exists []; split; [exact I|];
  split; [now apply pick_where_pending in W|];
  split; [|split; [rewrite app_nil_r; reflexivity|]];
  [intros r; reflexivity
  |left; split; [reflexivity|]; intros r; simpl; discriminate].

(** An iteration either finds nothing to claim and leaves the store alone,
    or rewrites the rows of one pending job and appends at most one
    dead-letter entry, for that job and only when the rows become dead. *)
Lemma process_one_job_effect (pid : Z) (t0 t1 : Time) (res : ExecResult)
  (uuid4 : string) (s : Store) :
  let s' := fst (_process_one_job pid t0 t1 res uuid4 s) in
  s' = s
  \/ exists row F dl,
       In row (jobs s) /\ state row = pending
       /\ (forall r, id (F r) = id r)
       /\ s' = mkStore (sql_update (id_is (id row)) F (jobs s))
                 (dlq s ++ dl) (config s)
       /\ ((dl = [] /\ forall r, state (F r) <> dead)
           \/ (exists e, dl = [e] /\ dlq_job_id e = id row
                         /\ forall r, state (F r) = dead)).
Proof.
  cbv zeta. unfold _process_one_job.
  set (lease := Config_get_int "lock_lease_seconds" s).
  destruct (hd_error (order_by sort_clause
              (filter (pick_where lease t0) (jobs s)))) as [row|] eqn:H.
  - right.
    destruct (pick_pending_job_selected s pid lease t0 row H)
      as (I & W & row0 & G & P).
    rewrite P. cbv zeta. set (job := claim_row pid t0 row0).
    set (s1 := update_job (id row) (claim_row pid t0) s).
    assert (J : id job = id row).
    { apply get_job_some in G. subst job. simpl. apply G. }
    assert (G1 : get_job (id job) s1 = Some job).
    { subst s1. rewrite J.
      rewrite (get_job_update_same _ (claim_row_keeps_id pid t0)).
      now rewrite G. }
    exists row.
    destruct (calculate_retry_at t1 (attempts job + 1)
                (Config_get_int "backoff_base" s1)
                (Config_get_int "max_backoff_seconds" s1)) as [rt|e] eqn:R;
      destruct (execute_and_handle job job t0 t1 res uuid4 s1 G1)
        as (A & B & C & D);
      (destruct (Z.eq_dec (res_exit_code res) 0) as [Z0|NZ];
       [rewrite (A Z0); subst s1; rewrite J; process_effect_alive I W|]);
      (destruct (Z_lt_le_dec (attempts job + 1) (max_retries job)) as [L|L];
       [|rewrite (D NZ L); subst s1; rewrite J; cbn [fst];
         rewrite update_job_compose by (intros; reflexivity);
         eexists; eexists; split; [exact I|];
         split; [now apply pick_where_pending in W|];
         split; [|split; [reflexivity|]];
         [intros r; reflexivity
         |right; eexists; split; [reflexivity|]; split; reflexivity]]).
    + rewrite (B NZ L rt R). subst s1. rewrite J. process_effect_alive I W.
    + rewrite (C NZ L e R). subst s1. rewrite J. process_effect_alive I W.
  - left. unfold pick_pending_job. fold lease. now rewrite H.
Qed.

Lemma process_one_job_primary_key (pid : Z) (t0 t1 : Time) (res : ExecResult)
  (uuid4 : string) (s : Store) :
  primary_key s -> primary_key (fst (_process_one_job pid t0 t1 res uuid4 s)).
Proof.
  intros PK.
  destruct (process_one_job_effect pid t0 t1 res uuid4 s)
    as [->|(row & F & dl & _ & _ & K & -> & _)]; [exact PK|].
  unfold primary_key. simpl. now rewrite (map_id_sql_update F K).
Qed.

(** A row that is not pending is out of the worker's reach. *)
Lemma process_one_job_keeps_row (pid : Z) (t0 t1 : Time) (res : ExecResult)
  (uuid4 x : string) (j : Job) (s : Store) :
  primary_key s -> get_job x s = Some j -> state j <> pending ->
  get_job x (fst (_process_one_job pid t0 t1 res uuid4 s)) = Some j.
Proof.
  intros PK G N.
  destruct (process_one_job_effect pid t0 t1 res uuid4 s)
    as [->|(row & F & dl & I & P & K & -> & _)]; [exact G|].
  pose proof G as G0. unfold get_job, sql_fetchone in G0 |- *. simpl.
  rewrite (find_sql_update F K), G0. simpl.
  destruct (id_is (id row) j) eqn:E; [|reflexivity].
  exfalso. unfold id_is in E. apply String.eqb_eq in E.
  apply get_job_some in G. destruct G as [Ij Ex].
  pose proof (get_job_in s j PK Ij) as G1.
  pose proof (get_job_in s row PK I) as G2.
  rewrite E in G1. congruence.
Qed.

Lemma run_keeps_row (pid : Z) (ticks : list Tick) (x : string) (j : Job)
  (s : Store) :
  primary_key s -> get_job x s = Some j -> state j <> pending ->
  get_job x (run pid ticks s) = Some j.
Proof.
  revert s. induction ticks as [|k ticks IH]; intros s PK G N; simpl;
    [exact G|].
  apply IH; [now apply process_one_job_primary_key | | exact N].
  now apply process_one_job_keeps_row.
Qed.

(** The claimed job along [run pid [k]]: its row afterwards, outcome by
    outcome. *)
Lemma run_claimed_outcome (s s1 : Store) (pid : Z) (k : Tick) (job : Job) :
  primary_key s ->
  pick_pending_job pid (Config_get_int "lock_lease_seconds" s) (tick_t0 k) s
  = (Some job, s1) ->
  let s' := run pid [k] s in
  let r := ran_row (tick_t0 k) (tick_t1 k) (tick_res k) job in
  let msg := error_msg (tick_res k) in
  let retry :=
    calculate_retry_at (tick_t1 k) (attempts job + 1)
      (Config_get_int "backoff_base" s)
      (Config_get_int "max_backoff_seconds" s) in
  (res_exit_code (tick_res k) = 0 ->
   get_job (id job) s' = Some (success_row (tick_t1 k) r) /\ dlq s' = dlq s)
  /\ (res_exit_code (tick_res k) <> 0 -> attempts job + 1 < max_retries job ->
      forall rt, retry = Returns rt ->
      get_job (id job) s' = Some (retry_row (tick_t1 k) msg rt r)
      /\ dlq s' = dlq s)
  /\ (res_exit_code (tick_res k) <> 0 -> attempts job + 1 < max_retries job ->
      forall e, retry = Raised e ->
      get_job (id job) s'
      = Some (raised_row (tick_t1 k) e (raised_row (tick_t1 k) msg r))
      /\ dlq s' = dlq s)
  /\ (res_exit_code (tick_res k) <> 0 -> max_retries job <= attempts job + 1 ->
      get_job (id job) s' = Some (dead_row (tick_t1 k) msg r)
      /\ dlq s'
         = dlq s ++ [mkDlq (tick_uuid k) (id job) (tick_t1 k)
                       ("Max retries exceeded: " ++ msg)%string
                       (raised_row (tick_t1 k) msg r)]).
Proof.
  intros PK P. cbv zeta. simpl run. unfold _process_one_job. rewrite P.
  cbv zeta.
  destruct (pick_pending_job_claims s s1 pid _ _ job PK P)
    as (row & I & W & J & S1 & G).
  destruct (execute_and_handle job job (tick_t0 k) (tick_t1 k) (tick_res k)
              (tick_uuid k) s1 G) as (A & B & C & D).
  assert (Cb : Config_get_int "backoff_base" s1
               = Config_get_int "backoff_base" s) by now rewrite S1.
  assert (Cm : Config_get_int "max_backoff_seconds" s1
               = Config_get_int "max_backoff_seconds" s) by now rewrite S1.
  assert (Dl : dlq s1 = dlq s) by now rewrite S1.
  rewrite Cb, Cm in B, C.
  split; [|split; [|split]].
  - intros E. rewrite (A E). cbn [fst].
    rewrite get_job_update_same by (intros; reflexivity). rewrite G.
    split; [reflexivity | exact Dl].
  - intros E L rt R. rewrite (B E L rt R). cbn [fst].
    rewrite get_job_update_same by (intros; reflexivity). rewrite G.
    split; [reflexivity | exact Dl].
  - intros E L e R. rewrite (C E L e R). cbn [fst].
    rewrite get_job_update_same by (intros; reflexivity). rewrite G.
    split; [reflexivity | exact Dl].
  - intros E L. rewrite (D E L). cbn [fst]. rewrite get_job_with_dlq.
    rewrite get_job_update_same by (intros; reflexivity). rewrite G.
    split; [reflexivity|]. simpl dlq. now rewrite Dl.
Qed.

(** ** C1: retry or dead letter *)

(** C1, as stated, fails: a job enqueued with [max_retries = 1] whose
    command fails is dead after its first execution, with [attempts = 1];
    a second iteration of the worker finds nothing to run, so [attempts]
    never becomes 2. *)
Lemma max_retries_one_counterexample :
  let k1 := mkTick 101 102 (mkExec 1 "" "boom") "u1" in
  let k2 := mkTick 103 104 (mkExec 1 "" "boom") "u2" in
  exists sd,
    insert_job "d" "false" 1 0 None 100 (mkStore [] [] []) = Some sd
    /\ option_map state (get_job "d" (run 7 [k1] sd)) = Some dead
    /\ option_map attempts (get_job "d" (run 7 [k1] sd)) = Some 1
    /\ run 7 [k1; k2] sd = run 7 [k1] sd
    /\ option_map attempts (get_job "d" (run 7 [k1; k2] sd)) <> Some 2.
Proof.
  eexists. split; [reflexivity|].
  split; [vm_compute; reflexivity|].
  split; [vm_compute; reflexivity|].
  split; [vm_compute; reflexivity|].
  vm_compute. discriminate.
Qed.

(** C1, amended. On every failure the handler compares the attempts of the
    row (already counting the failed execution) with [max_retries]: strictly
    less schedules a retry, provided the retry date is representable (the
    row returns to pending with [retry_at] set to the clock plus the backoff
    and no dead-letter entry is written); greater or equal moves the job to
    dead, with one new dead-letter entry whose reason begins
    "Max retries exceeded:".  Hence a fresh job with [max_retries = 1] whose
    command fails is executed once: that execution leaves it dead with
    [attempts = 1] and a dead-letter entry, and no later iteration of the
    worker runs it again. *)
Theorem failure_retries_or_dead_letters :
  (forall (job_id : string) (job j : Job) (error : string) (now : Time)
          (uuid4 : string) (s : Store),
     get_job job_id s = Some j ->
     let s' := fst (_handle_job_failure job_id job error now uuid4 s) in
     let backoff :=
       calculate_backoff (attempts j) (Config_get_int "backoff_base" s)
         (Config_get_int "max_backoff_seconds" s) in
     (attempts j < max_retries j ->
      retry_date_representable now backoff ->
      calculate_retry_at now (attempts j) (Config_get_int "backoff_base" s)
        (Config_get_int "max_backoff_seconds" s) = Returns (now + backoff)
      /\ snd (_handle_job_failure job_id job error now uuid4 s) = None
      /\ exists j',
           get_job job_id s' = Some j' /\ state j' = pending
           /\ retry_at j' = Some (now + backoff)
           /\ dlq s' = dlq s)
     /\ (attempts j >= max_retries j ->
         exists j' e,
           get_job job_id s' = Some j' /\ state j' = dead
           /\ dlq s' = dlq s ++ [e] /\ dlq_job_id e = job_id
           /\ prefix "Max retries exceeded:" (dlq_reason e) = true))
  /\ (forall (s s1 : Store) (pid : Z) (k : Tick) (job : Job),
        primary_key s ->
        pick_pending_job pid (Config_get_int "lock_lease_seconds" s)
          (tick_t0 k) s = (Some job, s1) ->
        attempts job = 0 -> max_retries job = 1 ->
        res_exit_code (tick_res k) <> 0 ->
        let s' := run pid [k] s in
        exists j' e,
          get_job (id job) s' = Some j'
          /\ state j' = dead /\ attempts j' = 1
          /\ dlq s' = dlq s ++ [e] /\ dlq_job_id e = id job
          /\ prefix "Max retries exceeded:" (dlq_reason e) = true
          /\ forall ticks, get_job (id job) (run pid ticks s') = Some j').
Proof.
  split.
  - intros job_id job j error now uuid4 s G. cbv zeta. split.
    + intros L Rep. pose proof (calculate_retry_at_returns _ _ _ _ Rep) as R.
      split; [exact R|].
      rewrite (handle_job_failure_retry job_id job j error now uuid4 s _ G L R).
      split; [reflexivity|]. cbn [fst].
      rewrite get_job_update_same by (intros; reflexivity). rewrite G.
      eexists. split; [reflexivity|]. repeat split.
    + intros L. apply Z.ge_le in L.
      rewrite (handle_job_failure_dead job_id job j error now uuid4 s G L).
      cbn [fst]. rewrite get_job_with_dlq.
      rewrite get_job_update_same by (intros; reflexivity). rewrite G.
      eexists. eexists. split; [reflexivity|]. split; [reflexivity|].
      split; [reflexivity|]. split; reflexivity.
  - intros s s1 pid k job PK P A M E. cbv zeta.
    assert (PK' : primary_key (run pid [k] s))
      by (simpl run; now apply process_one_job_primary_key).
    destruct (run_claimed_outcome s s1 pid k job PK P) as (_ & _ & _ & C).
    assert (L : max_retries job <= attempts job + 1) by lia.
    destruct (C E L) as [H D].
    eexists. eexists. split; [exact H|]. split; [reflexivity|].
    split; [simpl; lia|].
    split; [exact D|]. split; [reflexivity|].
    split; [reflexivity|].
    intros ticks. apply run_keeps_row; [exact PK' | exact H | discriminate].
Qed.

Lemma failure_retries_or_dead_letters_witness :
  let d := mkJob "d" "false" pending 0 1 100 100 None None 0 None None None
             None None None None None in
  let s := mkStore [d] [] [] in
  let k := mkTick 101 102 (mkExec 1 "" "boom") "u1" in
  exists j' e,
    get_job "d" (run 7 [k] s) = Some j'
    /\ state j' = dead /\ attempts j' = 1
    /\ dlq (run 7 [k] s) = dlq s ++ [e] /\ dlq_job_id e = "d"%string
    /\ prefix "Max retries exceeded:" (dlq_reason e) = true
    /\ forall ticks, get_job "d" (run 7 ticks (run 7 [k] s)) = Some j'.
Proof.
  intros d s k.
  apply (proj2 failure_retries_or_dead_letters s
           (update_job "d" (claim_row 7 101) s) 7 k (claim_row 7 101 d)).
  - unfold primary_key. simpl. constructor; [intros []|constructor].
  - reflexivity.
  - reflexivity.
  - reflexivity.
  - simpl. lia.
Defined.

(** ** C2: lock columns of finished jobs *)

(** C2. What one iteration of the worker leaves in the lock columns of the
    job it claimed: after a success the row is completed and unlocked, after
    a scheduled retry (the retry date being representable) it is pending and
    unlocked, but after the dead-letter move the row is dead and still
    carries the [locked_by] and [locked_at] that the claim wrote. *)
Theorem dead_letter_move_keeps_lock (s s1 : Store) (pid : Z) (k : Tick)
  (job : Job) :
  primary_key s ->
  pick_pending_job pid (Config_get_int "lock_lease_seconds" s) (tick_t0 k) s
  = (Some job, s1) ->
  exists j',
    get_job (id job) (run pid [k] s) = Some j'
    /\ (res_exit_code (tick_res k) = 0 ->
        state j' = completed /\ locked_by j' = None /\ locked_at j' = None)
    /\ (res_exit_code (tick_res k) <> 0 ->
        attempts job + 1 < max_retries job ->
        retry_date_representable (tick_t1 k)
          (calculate_backoff (attempts job + 1)
             (Config_get_int "backoff_base" s)
             (Config_get_int "max_backoff_seconds" s)) ->
        state j' = pending /\ locked_by j' = None /\ locked_at j' = None)
    /\ (res_exit_code (tick_res k) <> 0 ->
        max_retries job <= attempts job + 1 ->
        state j' = dead /\ locked_by j' = Some pid
        /\ locked_at j' = Some (tick_t0 k)).
Proof.
  intros PK P.
  destruct (pick_pending_job_claims s s1 pid _ _ job PK P)
    as (row & I & W & J & S1 & G).
  destruct (calculate_retry_at (tick_t1 k) (attempts job + 1)
              (Config_get_int "backoff_base" s)
              (Config_get_int "max_backoff_seconds" s)) as [rt|e] eqn:R;
    destruct (run_claimed_outcome s s1 pid k job PK P) as (A & B & C & D);
    (destruct (Z.eq_dec (res_exit_code (tick_res k)) 0) as [Z0|NZ];
     [destruct (A Z0) as [H _]; eexists; split; [exact H|];
      split; [intros _; repeat split|]; split; intros; contradiction|]);
    (destruct (Z_lt_le_dec (attempts job + 1) (max_retries job)) as [L|L];
     [|destruct (D NZ L) as [H _]; eexists; split; [exact H|];
       split; [intros; contradiction|];
       split; [intros; lia|]; intros _ _; subst job; repeat split]).
  - destruct (B NZ L rt R) as [H _]. eexists. split; [exact H|].
    split; [intros; contradiction|].
    split; [intros _ _ _; repeat split | intros; lia].
  - destruct (C NZ L e R) as [H _]. eexists. split; [exact H|].
    split; [intros; contradiction|].
    split; [|intros; lia]. intros _ _ Rep. exfalso.
    apply calculate_retry_at_returns in Rep. congruence.
Qed.

Lemma dead_letter_move_keeps_lock_witness :
  let d := mkJob "d" "false" pending 0 1 100 100 None None 0 None None None
             None None None None None in
  let s := mkStore [d] [] [] in
  let k := mkTick 101 102 (mkExec 1 "" "boom") "u1" in
  exists j',
    get_job "d" (run 7 [k] s) = Some j'
    /\ (1 = 0 ->
        state j' = completed /\ locked_by j' = None /\ locked_at j' = None)
    /\ (1 <> 0 -> 0 + 1 < 1 ->
        retry_date_representable 102 (calculate_backoff (0 + 1) 2 300) ->
        state j' = pending /\ locked_by j' = None /\ locked_at j' = None)
    /\ (1 <> 0 -> 1 <= 0 + 1 ->
        state j' = dead /\ locked_by j' = Some 7 /\ locked_at j' = Some 101).
Proof.
  intros d s k.
  apply (dead_letter_move_keeps_lock s
           (update_job "d" (claim_row 7 101) s) 7 k (claim_row 7 101 d)).
  - unfold primary_key. simpl. constructor; [intros []|constructor].
  - reflexivity.
Defined.

(** ** C8: promotion of retry-ready jobs *)

(** C8, as stated, fails twice over: a pending row whose [retry_at] has
    passed keeps its [retry_at] through the promotion, and a pending row
    whose [retry_at] equals now is not touched at all (its lock stays). *)
Lemma move_ready_jobs_counterexample :
  let past := mkJob "a" "true" pending 1 3 1 4 (Some 5) None 0 (Some 7)
                (Some 2) None None None None None None in
  let due := mkJob "b" "true" pending 1 3 1 4 (Some 10) None 0 (Some 7)
               (Some 2) None None None None None None in
  let s' := snd (move_ready_jobs_to_pending 10 (mkStore [past; due] [] [])) in
  option_map retry_at (get_job "a" s') = Some (Some 5)
  /\ option_map locked_by (get_job "a" s') = Some None
  /\ get_job "b" s' = Some due
  /\ locked_by due = Some 7.
Proof. vm_compute. repeat split. Qed.

Lemma retry_ready_passed (now : Time) (j : Job) :
  retry_ready now j = true <-> retry_passed now j.
Proof.
  unfold retry_ready, retry_passed. rewrite andb_true_iff, state_eqb_eq.
  destruct (retry_at j) as [t|].
  - rewrite Z.ltb_lt. split.
    + intros [S L]. split; [exact S|]. now exists t.
    + intros [S (t' & [= <-] & L)]. now split.
  - split; [intros [_ F]; discriminate | intros [_ (t & F & _)]; discriminate].
Qed.

Lemma job_eta (j : Job) :
  mkJob (id j) (command j) (state j) (attempts j) (max_retries j)
    (created_at j) (updated_at j) (retry_at j) (run_at j) (priority j)
    (locked_by j) (locked_at j) (last_error j) (output_path j)
    (stdout_log j) (stderr_log j) (exit_code j) (completed_at j) = j.
Proof. now destruct j. Qed.

(** C8, amended. The promotion rewrites exactly the pending rows whose
    [retry_at] is set and strictly before now: such a row stays pending,
    keeps its [retry_at] and every other column, and has [locked_by] and
    [locked_at] cleared; every other row, the dead-letter table and the
    configuration are untouched; the count returned is the number of rows
    rewritten; and running the promotion again on the result changes
    nothing. *)
Theorem move_ready_jobs_to_pending_effect (now : Time) (s : Store) :
  let s' := snd (move_ready_jobs_to_pending now s) in
  Forall2
    (fun j j' =>
       (retry_passed now j ->
        j' = set_locked_at None (set_locked_by None j)
        /\ state j' = pending /\ retry_at j' = retry_at j
        /\ locked_by j' = None /\ locked_at j' = None)
       /\ (~ retry_passed now j -> j' = j))
    (jobs s) (jobs s')
  /\ dlq s' = dlq s /\ config s' = config s
  /\ fst (move_ready_jobs_to_pending now s)
     = Z.of_nat (List.length (filter (retry_ready now) (jobs s)))
  /\ snd (move_ready_jobs_to_pending now s') = s'.
Proof.
  cbv zeta. simpl. split; [|split; [reflexivity|split; [reflexivity|]]].
  - induction (jobs s) as [|j l IH]; simpl; constructor; [|exact IH].
    split.
    + intros R. pose proof R as [S _]. apply retry_ready_passed in R.
      rewrite R. unfold clear_lock.
      split; [|repeat split; simpl; auto].
      rewrite <- (job_eta j) at 2. unfold set_state, set_locked_at,
        set_locked_by; simpl. now rewrite S.
    + intros N. destruct (retry_ready now j) eqn:R; [|reflexivity].
      apply retry_ready_passed in R. contradiction.
  - split; [reflexivity|]. unfold move_ready_jobs_to_pending, with_jobs.
    simpl. f_equal. unfold sql_update. rewrite map_map. apply map_ext.
    intros j. destruct (retry_ready now j) eqn:R; [|now rewrite R].
    assert (R' : retry_ready now (clear_lock pending j) = true).
    { unfold retry_ready in *. simpl.
      apply andb_true_iff in R. now destruct R as [_ ->]. }
    now rewrite R'.
Qed.

(** ** C9: dead jobs and their dead-letter entries *)

(** C9, as stated, fails: [move_to_dlq] does not look at the state of the
    job, so moving a job that is already dead adds a second entry. *)
Lemma move_to_dlq_twice_counterexample :
  let j := mkJob "x" "false" pending 0 3 1 1 None None 0 None None None
             None None None None None in
  let s1 := move_to_dlq "x" "first" 5 "u1" (mkStore [j] [] []) in
  let s2 := move_to_dlq "x" "second" 6 "u2" s1 in
  option_map state (get_job "x" s1) = Some dead
  /\ dlq_count "x" (dlq s1) = 1%nat
  /\ option_map state (get_job "x" s2) = Some dead
  /\ dlq_count "x" (dlq s2) = 2%nat.
Proof. vm_compute. repeat split. Qed.

Lemma dlq_count_app (x : string) (l l' : list DlqEntry) :
  dlq_count x (l ++ l') = (dlq_count x l + dlq_count x l')%nat.
Proof. unfold dlq_count. now rewrite filter_app, length_app. Qed.

Lemma dlq_count_one (x : string) (e : DlqEntry) :
  dlq_count x [e] = if String.eqb (dlq_job_id e) x then 1%nat else 0%nat.
Proof. unfold dlq_count, dlq_for. simpl. now destruct (String.eqb _ _). Qed.

Lemma dlq_count_none (x : string) (l : list DlqEntry) :
  (forall e, In e l -> dlq_job_id e <> x) -> dlq_count x l = 0%nat.
Proof.
  unfold dlq_count. induction l as [|e l IH]; simpl; [reflexivity|].
  intros H. unfold dlq_for at 1.
  destruct (String.eqb (dlq_job_id e) x) eqn:E.
  - apply String.eqb_eq in E. exfalso. apply (H e); auto.
  - apply IH. intros e' I. apply H. now right.
Qed.

Lemma dlq_count_delete_same (x : string) (l : list DlqEntry) :
  dlq_count x (sql_delete (dlq_for x) l) = 0%nat.
Proof.
  apply dlq_count_none. intros e I. now apply in_dlq_delete in I.
Qed.

Lemma dlq_count_delete_other (x y : string) (l : list DlqEntry) :
  x <> y -> dlq_count y (sql_delete (dlq_for x) l) = dlq_count y l.
Proof.
  intros N. unfold dlq_count, sql_delete. f_equal.
  induction l as [|e l IH]; simpl; [reflexivity|]. unfold dlq_for in *.
  destruct (String.eqb (dlq_job_id e) x) eqn:E;
    destruct (String.eqb (dlq_job_id e) y) eqn:F; simpl; rewrite ?F, ?IH;
    try reflexivity.
  apply String.eqb_eq in E, F. congruence.
Qed.

Lemma is_dead_false (j : Job) :
  state j <> dead -> state_eqb (state j) dead = false.
Proof.
  intros N. destruct (state_eqb (state j) dead) eqn:E; [|reflexivity].
  apply state_eqb_eq in E. contradiction.
Qed.

Lemma is_dead_true (j : Job) :
  state j = dead -> state_eqb (state j) dead = true.
Proof. intros ->. reflexivity. Qed.

(** Rewriting the rows of a job that is not dead and appending at most one
    entry for it, exactly when the rows become dead, keeps the invariant. *)
Lemma invariant_update_append (s : Store) (x : string) (F : Job -> Job)
  (dl : list DlqEntry) (row : Job) :
  dead_letter_invariant s ->
  (forall r, id (F r) = id r) ->
  In row (jobs s) -> id row = x -> state row <> dead ->
  (dl = [] /\ forall r, state (F r) <> dead)
  \/ (exists e, dl = [e] /\ dlq_job_id e = x /\ forall r, state (F r) = dead) ->
  dead_letter_invariant
    (mkStore (sql_update (id_is x) F (jobs s)) (dlq s ++ dl) (config s)).
Proof.
  intros [C FK] K I X N D.
  assert (Z0 : dlq_count x (dlq s) = 0%nat).
  { rewrite <- X, (C row I). now rewrite is_dead_false. }
  split; simpl.
  - intros j' I'. apply (in_sql_update F) in I'.
    destruct I' as (j & Ij & ->). rewrite dlq_count_app. unfold id_is.
    destruct (String.eqb (id j) x) eqn:E.
    + apply String.eqb_eq in E. rewrite K, E, Z0.
      destruct D as [[-> L]|(e & -> & Ee & L)].
      * now rewrite (is_dead_false _ (L j)).
      * rewrite (is_dead_true _ (L j)), dlq_count_one, Ee.
        now rewrite String.eqb_refl.
    + rewrite (C j Ij).
      assert (Z1 : dlq_count (id j) dl = 0%nat).
      { destruct D as [[-> _]|(e & -> & Ee & _)]; [reflexivity|].
        rewrite dlq_count_one, Ee, String.eqb_sym. now rewrite E. }
      rewrite Z1. apply Nat.add_0_r.
  - intros e Ie. apply in_app_or in Ie.
    assert (R : forall j, In j (jobs s) ->
                exists j', In j' (sql_update (id_is x) F (jobs s))
                           /\ id j' = id j).
    { intros j Ij. exists (if id_is x j then F j else j). split.
      - apply (in_sql_update F). now exists j.
      - destruct (id_is x j); [apply K | reflexivity]. }
    destruct Ie as [Ie|Ie].
    + destruct (FK e Ie) as (j & Ij & Ej).
      destruct (R j Ij) as (j' & I' & E'). exists j'. split; congruence.
    + destruct D as [[-> _]|(e' & -> & Ee & _)]; [contradiction|].
      destruct Ie as [<-|[]].
      destruct (R row I) as (j' & I' & E'). exists j'. split; congruence.
Qed.

(** A bulk UPDATE that neither reads nor writes a dead row keeps it too. *)
Lemma invariant_sql_update (s : Store) (w : Job -> bool) (F : Job -> Job) :
  dead_letter_invariant s ->
  (forall r, id (F r) = id r) ->
  (forall j, w j = true -> state j <> dead /\ state (F j) <> dead) ->
  dead_letter_invariant (mkStore (sql_update w F (jobs s)) (dlq s) (config s)).
Proof.
  intros [C FK] K L. split; simpl.
  - intros j' I'. apply (in_sql_update F) in I'.
    destruct I' as (j & Ij & ->). destruct (w j) eqn:W; [|now apply C].
    destruct (L j W) as [N N']. rewrite K, (C j Ij).
    now rewrite (is_dead_false _ N), (is_dead_false _ N').
  - intros e Ie. destruct (FK e Ie) as (j & Ij & Ej).
    exists (if w j then F j else j). split.
    + apply (in_sql_update F). now exists j.
    + destruct (w j); [now rewrite K | exact Ej].
Qed.

Lemma invariant_move_to_dlq (s : Store) (x reason : string) (now : Time)
  (uuid4 : string) (j : Job) :
  dead_letter_invariant s -> get_job x s = Some j -> state j <> dead ->
  dead_letter_invariant (move_to_dlq x reason now uuid4 s).
Proof.
  intros INV G N. unfold move_to_dlq. rewrite G.
  apply get_job_some in G. destruct G as [I X].
  apply (invariant_update_append s x _ _ j INV); try assumption.
  - intros r. reflexivity.
  - right. eexists. split; [reflexivity|]. split; [reflexivity|].
    intros r. reflexivity.
Qed.

Lemma invariant_process_one_job (s : Store) (pid : Z) (k : Tick) :
  dead_letter_invariant s ->
  dead_letter_invariant
    (fst (_process_one_job pid (tick_t0 k) (tick_t1 k) (tick_res k)
            (tick_uuid k) s)).
Proof.
  intros INV.
  destruct (process_one_job_effect pid (tick_t0 k) (tick_t1 k) (tick_res k)
              (tick_uuid k) s)
    as [->|(row & F & dl & I & P & K & -> & D)]; [exact INV|].
  apply (invariant_update_append s (id row) F dl row INV K I eq_refl).
  - rewrite P. discriminate.
  - exact D.
Qed.

Lemma invariant_requeue_from_dlq (s : Store) (x : string) (now : Time) :
  dead_letter_invariant s ->
  dead_letter_invariant (snd (requeue_from_dlq x now s)).
Proof.
  intros INV. unfold requeue_from_dlq.
  destruct (get_dlq_job x s) as [e|] eqn:G; [|exact INV].
  destruct INV as [C FK]. split; simpl.
  - intros j' I'. apply (in_sql_update (requeue_row now)) in I'.
    destruct I' as (j & Ij & ->). unfold id_is.
    destruct (String.eqb (id j) x) eqn:E.
    + apply String.eqb_eq in E. simpl. rewrite E.
      apply dlq_count_delete_same.
    + apply String.eqb_neq in E.
      rewrite dlq_count_delete_other by congruence. now apply C.
  - intros e' Ie. apply in_dlq_delete in Ie. destruct Ie as [Ie _].
    destruct (FK e' Ie) as (j & Ij & Ej).
    exists (if id_is x j then requeue_row now j else j). split.
    + apply (in_sql_update (requeue_row now)). now exists j.
    + now destruct (id_is x j).
Qed.

Lemma invariant_insert_job (s s' : Store) (job_id command : string)
  (max_retries priority : Z) (run_at : option Time) (now : Stamp) :
  dead_letter_invariant s ->
  insert_job job_id command max_retries priority run_at now s = Some s' ->
  dead_letter_invariant s'.
Proof.
  intros [C FK]. unfold insert_job.
  destruct (get_job job_id s) eqn:G; [discriminate|].
  destruct ((0 <=? priority) && (priority <=? 10)); [|discriminate].
  intros [= <-]. rewrite get_job_none in G. split; simpl.
  - intros j I. apply in_app_or in I. destruct I as [I|[<-|[]]].
    + now apply C.
    + simpl. apply dlq_count_none. intros e Ie E.
      destruct (FK e Ie) as (j & Ij & Ej). apply (G j Ij). congruence.
  - intros e Ie. destruct (FK e Ie) as (j & Ij & Ej). exists j.
    split; [apply in_or_app; now left | exact Ej].
Qed.

Lemma invariant_apply_op (o : Op) (s : Store) :
  dead_letter_invariant s -> dead_letter_invariant (apply_op o s).
Proof.
  intros INV.
  destruct o as [x cmd mr pr ra now|pid k|x now|now|lock_seconds now]; simpl.
  - destruct (insert_job x cmd mr pr ra now s) eqn:E; [|exact INV].
    now apply (invariant_insert_job s _ _ _ _ _ _ _ INV E).
  - now apply invariant_process_one_job.
  - now apply invariant_requeue_from_dlq.
  - apply (invariant_sql_update s _ _ INV); [intros; reflexivity|].
    intros j W. unfold retry_ready in W. apply andb_true_iff in W.
    destruct W as [W _]. apply state_eqb_eq in W. rewrite W.
    split; discriminate.
  - apply (invariant_sql_update s _ _ INV); [intros; reflexivity|].
    intros j W. unfold lock_expired in W. apply andb_true_iff in W.
    destruct W as [W _]. apply state_eqb_eq in W. rewrite W.
    split; discriminate.
Qed.

(** C9, amended. [move_to_dlq] has no guard on the state of the job: applied
    to a job that is not dead it keeps the invariant (the job becomes dead
    with exactly one entry), and the worker only applies it to the job it
    has just claimed.  So in every store reached from the empty tables by
    enqueues, worker iterations, requeues and the two maintenance updates,
    each run to completion, every dead job has exactly one dead-letter entry
    and no job in another state has any. *)
Theorem dead_letter_invariant_reachable :
  (forall (s : Store) (job_id reason : string) (now : Time) (uuid4 : string)
          (j : Job),
     dead_letter_invariant s -> get_job job_id s = Some j ->
     state j <> dead ->
     dead_letter_invariant (move_to_dlq job_id reason now uuid4 s))
  /\ (forall (cfg : list (string * Z)) (ops : list Op),
        dead_letter_invariant (exec ops (mkStore [] [] cfg))).
Proof.
  split; [exact invariant_move_to_dlq|].
  intros cfg ops.
  assert (G : forall s, dead_letter_invariant s ->
                        dead_letter_invariant (exec ops s)).
  { induction ops as [|o ops IH]; intros s INV; simpl; [exact INV|].
    apply IH. now apply invariant_apply_op. }
  apply G. split; simpl; intros ? [].
Qed.

Lemma dead_letter_invariant_reachable_witness :
  let j := mkJob "x" "false" processing 1 1 1 4 None None 0 (Some 7) (Some 3)
             None None None None None None in
  dead_letter_invariant (move_to_dlq "x" "why" 5 "u" (mkStore [j] [] [])).
Proof.
  intros j.
  apply (proj1 dead_letter_invariant_reachable (mkStore [j] [] [])
           "x"%string "why"%string 5 "u"%string j).
  - split; simpl.
    + intros r [<-|[]]. reflexivity.
    + intros e [].
  - reflexivity.
  - simpl. discriminate.
Defined.

(** * Further properties *)

(** ** One iteration of the worker loop, case by case *)

Lemma primary_key_same_id (s : Store) (a b : Job) :
  primary_key s -> In a (jobs s) -> In b (jobs s) -> id a = id b -> a = b.
Proof.
  intros PK Ia Ib E.
  pose proof (get_job_in s a PK Ia) as Ga.
  pose proof (get_job_in s b PK Ib) as Gb.
  rewrite E in Ga. congruence.
Qed.

Lemma in_update_job (s : Store) (row : Job) (F : Job -> Job) (j' : Job) :
  primary_key s -> In row (jobs s) ->
  In j' (jobs (update_job (id row) F s)) ->
  j' = F row \/ (In j' (jobs s) /\ id j' <> id row).
Proof.
  intros PK I I'. simpl in I'. apply in_sql_update in I'.
  destruct I' as (j & Ij & ->). unfold id_is.
  destruct (String.eqb (id j) (id row)) eqn:E.
  - apply String.eqb_eq in E. left. f_equal.
    now apply (primary_key_same_id s).
  - apply String.eqb_neq in E. right. now split.
Qed.

Lemma update_job_primary_key (s : Store) (x : string) (F : Job -> Job) :
  (forall r, id (F r) = id r) -> primary_key s ->
  primary_key (update_job x F s).
Proof.
  intros K PK. unfold primary_key. simpl. now rewrite (map_id_sql_update F K).
Qed.

(** An iteration of the worker, under the primary key: nothing is eligible
    and the store stays as it is, or the first eligible row in the order is
    claimed and run, with one of four outcomes: success, retry, an
    exception while the retry date is computed, dead letter. *)
Lemma process_one_job_cases (pid : Z) (t0 t1 : Time) (res : ExecResult)
  (uuid4 : string) (s : Store) :
  primary_key s ->
  let lease := Config_get_int "lock_lease_seconds" s in
  let o := _process_one_job pid t0 t1 res uuid4 s in
  (o = (s, None) /\ forall j, In j (jobs s) -> pick_where lease t0 j = false)
  \/ exists row,
       In row (jobs s) /\ pick_where lease t0 row = true
       /\ ((res_exit_code res = 0
            /\ o = (update_job (id row)
                      (fun r => success_row t1
                                  (ran_row t0 t1 res (claim_row pid t0 r))) s,
                    None))
           \/ (res_exit_code res <> 0
               /\ attempts row + 1 < max_retries row
               /\ exists rt,
                    calculate_retry_at t1 (attempts row + 1)
                      (Config_get_int "backoff_base" s)
                      (Config_get_int "max_backoff_seconds" s) = Returns rt
                    /\ o = (update_job (id row)
                              (fun r =>
                                 retry_row t1 (error_msg res) rt
                                   (ran_row t0 t1 res (claim_row pid t0 r))) s,
                            None))
           \/ (res_exit_code res <> 0
               /\ attempts row + 1 < max_retries row
               /\ exists e,
                    calculate_retry_at t1 (attempts row + 1)
                      (Config_get_int "backoff_base" s)
                      (Config_get_int "max_backoff_seconds" s) = Raised e
                    /\ o = (update_job (id row)
                              (fun r =>
                                 raised_row t1 e
                                   (raised_row t1 (error_msg res)
                                      (ran_row t0 t1 res
                                         (claim_row pid t0 r)))) s,
                            Some e))
           \/ (res_exit_code res <> 0
               /\ max_retries row <= attempts row + 1
               /\ o = (with_dlq
                         (update_job (id row)
                            (fun r =>
                               dead_row t1 (error_msg res)
                                 (ran_row t0 t1 res (claim_row pid t0 r))) s)
                         (dlq s
                          ++ [mkDlq uuid4 (id row) t1
                                ("Max retries exceeded: " ++ error_msg res)%string
                                (raised_row t1 (error_msg res)
                                   (ran_row t0 t1 res
                                      (claim_row pid t0 row)))]),
                       None))).
Proof.
  intros PK. cbv zeta. unfold _process_one_job.
  set (lease := Config_get_int "lock_lease_seconds" s).
  destruct (pick_pending_job pid lease t0 s) as [[job|] s1] eqn:P.
  - right. cbv zeta.
    destruct (pick_pending_job_claims s s1 pid lease t0 job PK P)
      as (row & I & W & J & S1 & G).
    exists row. split; [exact I|]. split; [exact W|].
    assert (Ji : id job = id row) by (subst job; reflexivity).
    assert (Cb : Config_get_int "backoff_base" s1
                 = Config_get_int "backoff_base" s) by now rewrite S1.
    assert (Cm : Config_get_int "max_backoff_seconds" s1
                 = Config_get_int "max_backoff_seconds" s) by now rewrite S1.
    destruct (execute_and_handle job job t0 t1 res uuid4 s1 G)
      as (A & B & C & D).
    rewrite Cb, Cm in B, C.
    destruct (raises_cases
                (calculate_retry_at t1 (attempts row + 1)
                   (Config_get_int "backoff_base" s)
                   (Config_get_int "max_backoff_seconds" s)))
      as [(rt & R)|(e & R)];
      (destruct (Z.eq_dec (res_exit_code res) 0) as [Z0|NZ];
       [left; split; [exact Z0|]; rewrite (A Z0), S1, Ji;
        now rewrite update_job_compose by (intros; reflexivity)|]);
      (destruct (Z_lt_le_dec (attempts job + 1) (max_retries job)) as [L|L];
       [|right; right; right; split; [exact NZ|]; subst job;
         split; [exact L|]; rewrite (D NZ L), S1; simpl id;
         now rewrite update_job_compose by (intros; reflexivity)]).
    + right. left. split; [exact NZ|]. subst job. split; [exact L|].
      exists rt. split; [exact R|].
      rewrite (B NZ L rt R), S1. simpl id.
      now rewrite update_job_compose by (intros; reflexivity).
    + right. right. left. split; [exact NZ|]. subst job. split; [exact L|].
      exists e. split; [exact R|].
      rewrite (C NZ L e R), S1. simpl id.
      now rewrite update_job_compose by (intros; reflexivity).
  - left.
    destruct (hd_error (order_by sort_clause
                (filter (pick_where lease t0) (jobs s)))) as [row|] eqn:H.
    + destruct (pick_pending_job_selected s pid lease t0 row H)
        as (_ & _ & row0 & _ & P').
      rewrite P' in P. discriminate.
    + unfold pick_pending_job in P. rewrite H in P. injection P as <-.
      split; [reflexivity|]. intros j I.
      destruct (pick_where lease t0 j) eqn:W; [|reflexivity].
      apply hd_error_none in H.
      assert (J : In j (order_by sort_clause
                          (filter (pick_where lease t0) (jobs s)))).
      { apply in_order_by, filter_In. now split. }
      rewrite H in J. contradiction.
Qed.

(** ** What a sequential run keeps true of every row *)

Lemma job_ok_pending (j : Job) :
  job_ok j -> state j = pending ->
  0 <= priority j <= 10
  /\ (attempts j = 0 \/ (0 <= attempts j /\ attempts j < max_retries j)).
Proof.
  intros (P & A & _ & _ & Pe & _) S. split; [exact P|].
  destruct (Pe S) as [[Z0|L] _]; [now left | right; lia].
Qed.

Lemma store_ok_process_one_job (pid : Z) (t0 t1 : Time) (res : ExecResult)
  (uuid4 : string) (s : Store) :
  store_ok s -> store_ok (fst (_process_one_job pid t0 t1 res uuid4 s)).
Proof.
  intros [PK OK]. split; [now apply process_one_job_primary_key|].
  destruct (process_one_job_cases pid t0 t1 res uuid4 s PK)
    as [[-> _]|(row & I & W & Cases)]; [exact OK|].
  pose proof (job_ok_pending row (OK row I) (pick_where_pending _ _ _ W))
    as [P A].
  destruct Cases
    as [(Z0 & ->)|[(NZ & L & rt & _ & ->)|[(NZ & L & e & _ & ->)
                                          |(NZ & L & ->)]]];
    cbn [fst]; intros j' I';
    (apply (in_update_job s row _ j' PK I) in I' ||
     (rewrite <- update_job_with_dlq in I'; simpl in I';
      change (In j' (jobs (update_job (id row)
                 (fun r => dead_row t1 (error_msg res)
                    (ran_row t0 t1 res (claim_row pid t0 r))) s))) in I';
      apply (in_update_job s row _ j' PK I) in I'));
    destruct I' as [->|[I' _]]; try (now apply OK);
    unfold job_ok; simpl; rewrite ?Z0;
    repeat split; try discriminate; try congruence; try lia.
Qed.

Lemma store_ok_insert_job (s s' : Store) (job_id command : string)
  (max_retries priority : Z) (run_at : option Time) (now : Stamp) :
  store_ok s ->
  insert_job job_id command max_retries priority run_at now s = Some s' ->
  store_ok s'.
Proof.
  intros [PK OK]. unfold insert_job.
  destruct (get_job job_id s) eqn:G; [discriminate|].
  destruct ((0 <=? priority) && (priority <=? 10)) eqn:C; [|discriminate].
  intros [= <-]. apply andb_true_iff in C. destruct C as [C1 C2].
  apply Z.leb_le in C1, C2. rewrite get_job_none in G. split.
  - unfold primary_key in *. simpl. rewrite map_app. simpl.
    apply NoDup_app; [exact PK | | ].
    + constructor; [intros []|constructor].
    + intros x Ix [<-|[]]. apply in_map_iff in Ix.
      destruct Ix as (j & E & Ij). now apply (G j Ij).
  - simpl. intros j I. apply in_app_or in I. destruct I as [I|[<-|[]]].
    + now apply OK.
    + unfold job_ok; simpl.
      repeat split; try discriminate; try congruence; try lia.
Qed.

Lemma store_ok_sql_update (s : Store) (w : Job -> bool) (F : Job -> Job) :
  store_ok s ->
  (forall r, id (F r) = id r) ->
  (forall j, job_ok j -> w j = true -> job_ok (F j)) ->
  store_ok (mkStore (sql_update w F (jobs s)) (dlq s) (config s)).
Proof.
  intros [PK OK] K H. split.
  - unfold primary_key in *. simpl. now rewrite (map_id_sql_update F K).
  - simpl. intros j' I'. apply in_sql_update in I'.
    destruct I' as (j & Ij & ->). destruct (w j) eqn:W; [|now apply OK].
    apply H; [now apply OK | exact W].
Qed.

Lemma job_ok_requeue_row (now : Time) (j : Job) :
  job_ok j -> job_ok (requeue_row now j).
Proof.
  intros (P & _). unfold job_ok; simpl.
  repeat split; try discriminate; try congruence; try lia.
Qed.

Lemma store_ok_apply_op (o : Op) (s : Store) :
  store_ok s -> store_ok (apply_op o s).
Proof.
  intros OK.
  destruct o as [x cmd mr pr ra now|pid k|x now|now|lock_seconds now]; simpl.
  - destruct (insert_job x cmd mr pr ra now s) eqn:E; [|exact OK].
    now apply (store_ok_insert_job s _ _ _ _ _ _ _ OK E).
  - now apply store_ok_process_one_job.
  - unfold requeue_from_dlq. destruct (get_dlq_job x s); [|exact OK]. simpl.
    destruct (store_ok_sql_update s (id_is x) (requeue_row now) OK) as [A B].
    + intros; reflexivity.
    + intros j J _. now apply job_ok_requeue_row.
    + split; assumption.
  - apply (store_ok_sql_update s _ _ OK); [intros; reflexivity|].
    intros j J W. unfold retry_ready in W. apply andb_true_iff in W.
    destruct W as [W _]. apply state_eqb_eq in W.
    destruct J as (P & A & N1 & N2 & Pe & _). destruct (Pe W) as (B & _).
    unfold job_ok; simpl.
    repeat split; try discriminate; try congruence; try lia; tauto.
  - apply (store_ok_sql_update s _ _ OK); [intros; reflexivity|].
    intros j J W. unfold lock_expired in W. apply andb_true_iff in W.
    destruct W as [W _]. apply state_eqb_eq in W.
    destruct J as (P & A & Pr & _). destruct (Pr W) as (B & C & _).
    unfold job_ok; simpl.
    repeat split; try discriminate; try congruence; try lia.
Qed.

Lemma store_ok_exec (cfg : list (string * Z)) (ops : list Op) :
  store_ok (exec ops (mkStore [] [] cfg)).
Proof.
  assert (G : forall s, store_ok s -> store_ok (exec ops s)).
  { induction ops as [|o ops IH]; intros s OK; simpl; [exact OK|].
    apply IH. now apply store_ok_apply_op. }
  apply G. split; [constructor | intros j []].
Qed.

(** X1. Every store reached from empty tables by enqueues, worker
    iterations, requeues and the two maintenance updates respects the
    primary key of [jobs] and the CHECK on [priority]. *)
Theorem reachable_primary_key (cfg : list (string * Z)) (ops : list Op) :
  primary_key (exec ops (mkStore [] [] cfg))
  /\ check_priority (exec ops (mkStore [] [] cfg)).
Proof.
  destruct (store_ok_exec cfg ops) as [PK OK]. split; [exact PK|].
  intros j I. apply (OK j I).
Qed.

(** X2. In every such store the retry budget is respected: a job has begun
    at least zero and at most [max(1, max_retries)] executions since it was
    enqueued or requeued; a pending job has begun none or fewer than
    [max_retries]; a dead job has used its budget up. *)
Theorem reachable_attempts_budget (cfg : list (string * Z)) (ops : list Op)
  (j : Job) :
  In j (jobs (exec ops (mkStore [] [] cfg))) ->
  0 <= attempts j <= Z.max 1 (max_retries j)
  /\ (state j = pending -> attempts j = 0 \/ attempts j < max_retries j)
  /\ (state j = dead -> 1 <= attempts j /\ max_retries j <= attempts j).
Proof.
  intros I. destruct (store_ok_exec cfg ops) as [_ OK].
  destruct (OK j I) as (_ & A & _ & _ & Pe & _ & De).
  split; [exact A|]. split.
  - intros S. apply (Pe S).
  - intros S. destruct (De S) as (B & C & _). now split.
Qed.

Lemma reachable_attempts_budget_witness :
  let k := mkTick 101 102 (mkExec 1 "" "boom") "u1" in
  let ops := [op_insert_job "d" "false" 2 0 None 100;
              op_process_one_job 7 k] in
  exists j,
    In j (jobs (exec ops (mkStore [] [] [])))
    /\ 0 <= attempts j <= Z.max 1 (max_retries j)
    /\ (state j = pending -> attempts j = 0 \/ attempts j < max_retries j)
    /\ (state j = dead -> 1 <= attempts j /\ max_retries j <= attempts j).
Proof.
  intros k ops. eexists. split.
  - vm_compute. left. reflexivity.
  - apply (reachable_attempts_budget [] ops). vm_compute. left. reflexivity.
Defined.

Lemma config_apply_op (o : Op) (s : Store) : config (apply_op o s) = config s.
Proof.
  destruct o as [x cmd mr pr ra now|pid k|x now|now|lock_seconds now]; simpl;
    try reflexivity.
  - unfold insert_job. destruct (get_job x s); [reflexivity|].
    now destruct ((0 <=? pr) && (pr <=? 10)).
  - destruct (process_one_job_effect pid (tick_t0 k) (tick_t1 k) (tick_res k)
                (tick_uuid k) s)
      as [->|(row & F & dl & _ & _ & _ & -> & _)]; reflexivity.
  - unfold requeue_from_dlq. now destruct (get_dlq_job x s).
Qed.

(** While every retry date is representable, an operation that starts from
    a store without processing rows ends in one. *)
Lemma no_processing_apply_op (o : Op) (s : Store) :
  primary_key s ->
  (forall pid k, o = op_process_one_job pid k ->
                 retry_dates_fit (config s) (tick_t1 k)) ->
  (forall j, In j (jobs s) -> state j <> processing) ->
  forall j, In j (jobs (apply_op o s)) -> state j <> processing.
Proof.
  intros PK Fit N.
  destruct o as [x cmd mr pr ra now|pid k|x now|now|lock_seconds now]; simpl.
  - unfold insert_job. destruct (get_job x s); [exact N|].
    destruct ((0 <=? pr) && (pr <=? 10)); [|exact N].
    simpl. intros j I. apply in_app_or in I.
    destruct I as [I|[<-|[]]]; [now apply N | discriminate].
  - specialize (Fit pid k eq_refl).
    destruct (process_one_job_cases pid (tick_t0 k) (tick_t1 k) (tick_res k)
                (tick_uuid k) s PK)
      as [[-> _]|(row & I & W & Cases)]; [exact N|].
    destruct Cases
      as [(Z0 & ->)|[(NZ & L & rt & _ & ->)|[(NZ & L & e & R & _)
                                            |(NZ & L & ->)]]];
      cbn [fst].
    + intros j' I'. apply (in_update_job s row _ j' PK I) in I'.
      destruct I' as [->|[I' _]]; [discriminate | now apply N].
    + intros j' I'. apply (in_update_job s row _ j' PK I) in I'.
      destruct I' as [->|[I' _]]; [discriminate | now apply N].
    + exfalso.
      pose proof (retry_dates_fit_representable s (tick_t1 k)
                    (attempts row + 1) Fit) as Rep.
      apply calculate_retry_at_returns in Rep. congruence.
    + intros j' I'. rewrite <- update_job_with_dlq in I'.
      apply (in_update_job _ row _ j') in I'; [|exact PK|exact I].
      destruct I' as [->|[I' _]]; [discriminate | now apply N].
  - unfold requeue_from_dlq. destruct (get_dlq_job x s); [|exact N].
    simpl. intros j' I'. apply in_sql_update in I'.
    destruct I' as (j & Ij & ->).
    destruct (id_is x j); [discriminate | now apply N].
  - intros j' I'. apply in_sql_update in I'. destruct I' as (j & Ij & ->).
    destruct (retry_ready now j); [discriminate | now apply N].
  - intros j' I'. apply in_sql_update in I'. destruct I' as (j & Ij & ->).
    destruct (lock_expired lock_seconds now j); [discriminate | now apply N].
Qed.

Lemma no_processing_exec (ops : list Op) (s : Store) :
  store_ok s -> ops_retry_dates_fit (config s) ops ->
  (forall j, In j (jobs s) -> state j <> processing) ->
  forall j, In j (jobs (exec ops s)) -> state j <> processing.
Proof.
  revert s. induction ops as [|o ops IH]; intros s OK Fit N; simpl;
    [exact N|].
  apply IH.
  - now apply store_ok_apply_op.
  - rewrite config_apply_op. intros pid k I. apply (Fit pid k). now right.
  - apply no_processing_apply_op; [apply OK | | exact N].
    intros pid k ->. apply (Fit pid k). now left.
Qed.

(** X3. In every such store no job is ever [failed], [locked_by] is NULL
    exactly when [locked_at] is, pending and completed jobs hold no lock,
    and a job left in [processing] between two operations is locked and has
    begun at least one and fewer than [max_retries] executions.  When the
    retry date of every worker iteration is representable, no job at all is
    left in [processing] between two operations. *)
Theorem reachable_states_and_locks (cfg : list (string * Z)) (ops : list Op)
  (j : Job) :
  In j (jobs (exec ops (mkStore [] [] cfg))) ->
  state j <> failed
  /\ (locked_by j = None <-> locked_at j = None)
  /\ (state j = pending \/ state j = completed ->
      locked_by j = None /\ locked_at j = None)
  /\ (state j = processing ->
      locked_by j <> None /\ 1 <= attempts j < max_retries j)
  /\ (ops_retry_dates_fit cfg ops -> state j <> processing).
Proof.
  intros I. destruct (store_ok_exec cfg ops) as [_ OK].
  destruct (OK j I) as (_ & _ & Pr & N2 & Pe & Co & De).
  split; [exact N2|]. split; [|split; [|split]].
  - destruct (state j) eqn:S; try contradiction.
    + destruct (Pe eq_refl) as (_ & -> & ->). tauto.
    + destruct (Pr eq_refl) as (_ & _ & A & B). tauto.
    + destruct (Co eq_refl) as (_ & _ & _ & -> & ->). tauto.
    + destruct (De eq_refl) as (_ & _ & A & B). tauto.
  - intros [S|S]; [apply (Pe S) | apply (Co S)].
  - intros S. destruct (Pr S) as (A & B & C & _). repeat split; assumption.
  - intros Fit.
    apply (no_processing_exec ops (mkStore [] [] cfg)); [| | |exact I].
    + split; [constructor | intros j0 []].
    + exact Fit.
    + intros j0 [].
Qed.

Lemma reachable_states_and_locks_witness :
  let k := mkTick 101 102 (mkExec 1 "" "boom") "u1" in
  let ops := [op_insert_job "a" "false" 3 0 None 100;
              op_process_one_job 7 k] in
  exists j,
    In j (jobs (exec ops (mkStore [] [] [])))
    /\ state j <> failed
    /\ (locked_by j = None <-> locked_at j = None)
    /\ (state j = pending \/ state j = completed ->
        locked_by j = None /\ locked_at j = None)
    /\ (state j = processing ->
        locked_by j <> None /\ 1 <= attempts j < max_retries j)
    /\ (ops_retry_dates_fit [] ops -> state j <> processing).
Proof.
  intros k ops. eexists. split.
  - vm_compute. left. reflexivity.
  - apply (reachable_states_and_locks [] ops). vm_compute. left. reflexivity.
Defined.

(** X4. In every such store a completed job has begun at least one
    execution, carries exit code 0 and has its [completed_at] set. *)
Theorem reachable_completed (cfg : list (string * Z)) (ops : list Op)
  (j : Job) :
  In j (jobs (exec ops (mkStore [] [] cfg))) -> state j = completed ->
  1 <= attempts j /\ exit_code j = Some 0 /\ completed_at j <> None.
Proof.
  intros I S. destruct (store_ok_exec cfg ops) as [_ OK].
  destruct (OK j I) as (_ & _ & _ & _ & _ & Co & _).
  destruct (Co S) as (A & B & C & _). repeat split; assumption.
Qed.

Lemma reachable_completed_witness :
  let k := mkTick 101 102 (mkExec 0 "ok" "") "u1" in
  let ops := [op_insert_job "a" "true" 3 0 None 100;
              op_process_one_job 7 k] in
  let j := mkJob "a" "true" completed 1 3 100 102 None None 0 None None None
             None (Some "ok"%string) (Some ""%string) (Some 0) (Some 102) in
  1 <= attempts j /\ exit_code j = Some 0 /\ completed_at j <> None.
Proof.
  intros k ops j. apply (reachable_completed [] ops j).
  - vm_compute. left. reflexivity.
  - reflexivity.
Defined.

(** ** Enqueue and lookup *)



(** ** Backoff *)

(** X6. For a base of at least one and a count of at least zero the backoff
    never shrinks when the count grows, never exceeds the cap, and is at
    least one second when the cap is. *)
Theorem calculate_backoff_monotone (attempts base max_backoff : Z) :
  0 <= attempts -> 1 <= base ->
  calculate_backoff attempts base max_backoff
  <= calculate_backoff (attempts + 1) base max_backoff
  /\ calculate_backoff attempts base max_backoff <= max_backoff
  /\ (1 <= max_backoff -> 1 <= calculate_backoff attempts base max_backoff).
Proof.
  intros A B. unfold calculate_backoff.
  assert (M : base ^ attempts <= base ^ (attempts + 1))
    by (apply Z.pow_le_mono_r; lia).
  assert (P : 1 <= base ^ attempts).
  { replace 1 with (1 ^ attempts) by apply Z.pow_1_l, A.
    apply Z.pow_le_mono_l. lia. }
  lia.
Qed.

Lemma calculate_backoff_monotone_witness :
  calculate_backoff 3 2 300 <= calculate_backoff (3 + 1) 2 300
  /\ calculate_backoff 3 2 300 <= 300
  /\ (1 <= 300 -> 1 <= calculate_backoff 3 2 300).
Proof. apply calculate_backoff_monotone; lia. Defined.

(** ** Reclaiming expired locks *)

Lemma lock_expired_stale (lock_seconds : Z) (now : Time) (j : Job) :
  0 <= lock_seconds ->
  lock_expired lock_seconds now j = true <-> lock_stale lock_seconds now j.
Proof.
  intros L. unfold lock_expired, lock_stale, datetime_now_minus.
  destruct (Z.ltb_spec lock_seconds 0) as [?|_]; [lia|].
  rewrite andb_true_iff, state_eqb_eq.
  destruct (locked_at j) as [t|].
  - rewrite Z.ltb_lt. split.
    + intros [S K]. split; [exact S|]. exists t. split; [reflexivity|lia].
    + intros [S (t' & [= <-] & K)]. split; [exact S|lia].
  - split; [intros [_ F]; discriminate | intros [_ (t & F & _)]; discriminate].
Qed.





(** X8. A processing row with an expired lease is not eligible for a claim
    as it stands (the claim only takes pending rows); once
    [cleanup_expired_locks] has run it is, provided its [run_at] is NULL or
    not after now, and it still carries the attempts already counted. *)
Theorem stale_lock_reclaimed (lock_seconds : Z) (now : Time) (s : Store)
  (j : Job) :
  0 <= lock_seconds ->
  In j (jobs s) -> lock_stale lock_seconds now j ->
  (run_at j = None \/ exists t, run_at j = Some t /\ t <= now) ->
  pick_where lock_seconds now j = false
  /\ exists j',
       In j' (jobs (snd (cleanup_expired_locks lock_seconds now s)))
       /\ id j' = id j /\ attempts j' = attempts j
       /\ pick_where lock_seconds now j' = true.
Proof.
  intros L I St R. split.
  - unfold pick_where. destruct St as [-> _]. reflexivity.
  - exists (clear_lock pending j). split; [|split; [reflexivity|split;
      [reflexivity|]]].
    + simpl. apply in_sql_update. exists j. split; [exact I|].
      apply (lock_expired_stale _ _ _ L) in St. now rewrite St.
    + apply pick_where_eligible; [exact L|]. unfold eligible; simpl.
      split; [reflexivity|]. split; [exact R | now left].
Qed.

Lemma stale_lock_reclaimed_witness :
  let j := mkJob "z" "sleep 9" processing 1 3 1 2 None None 0 (Some 7)
             (Some 2) None None None None None None in
  let s := mkStore [j] [] [] in
  pick_where 300 1000 j = false
  /\ exists j',
       In j' (jobs (snd (cleanup_expired_locks 300 1000 s)))
       /\ id j' = id j /\ attempts j' = attempts j
       /\ pick_where 300 1000 j' = true.
Proof.
  intros j s. apply (stale_lock_reclaimed 300 1000 s j).
  - lia.
  - simpl. left. reflexivity.
  - split; [reflexivity|]. exists 2. split; [reflexivity|lia].
  - left. reflexivity.
Defined.

(** ** What one iteration of the worker touches *)

(** X9. One iteration of the worker loop never changes the configuration,
    never adds or removes a job row, never removes a dead-letter entry and
    adds at most one; it changes the rows of at most one job id; and under
    the primary key a job that is not pending is left exactly as it is. *)
Theorem process_one_job_frame (pid : Z) (t0 t1 : Time) (res : ExecResult)
  (uuid4 : string) (s : Store) :
  let s' := fst (_process_one_job pid t0 t1 res uuid4 s) in
  config s' = config s
  /\ map id (jobs s') = map id (jobs s)
  /\ (exists dl, dlq s' = dlq s ++ dl /\ (List.length dl <= 1)%nat)
  /\ (exists x, forall y, y <> x -> get_job y s' = get_job y s)
  /\ (primary_key s ->
      forall y j, get_job y s = Some j -> state j <> pending ->
                  get_job y s' = Some j).
Proof.
  cbv zeta.
  destruct (process_one_job_effect pid t0 t1 res uuid4 s)
    as [E|(row & F & dl & I & P & K & E & D)].
  - rewrite E. split; [reflexivity|]. split; [reflexivity|]. split.
    + exists []. split; [now rewrite app_nil_r | simpl; lia].
    + split; [exists ""%string; reflexivity|]. intros _ y j G _. exact G.
  - split; [now rewrite E|]. split; [rewrite E; simpl;
      apply (map_id_sql_update F K)|]. split.
    + exists dl. split; [now rewrite E|].
      destruct D as [[-> _]|(e & -> & _)]; simpl; lia.
    + split.
      * exists (id row). intros y N. rewrite E.
        apply (get_job_update_other F K y (id row) s N).
      * intros PK y j G N.
        now apply process_one_job_keeps_row.
Qed.

(** X10. Whatever the command returns, the iteration that ran a job stores
    its exit code, stdout and stderr in the row, as [get_job_output] shows
    them, and counts one more attempt; [completed_at] is set to the clock
    after the run when the exit code is 0 and left as it was otherwise. *)
Theorem process_one_job_stores_output (s s1 : Store) (pid : Z) (k : Tick)
  (job : Job) :
  primary_key s ->
  pick_pending_job pid (Config_get_int "lock_lease_seconds" s) (tick_t0 k) s
  = (Some job, s1) ->
  let s' := run pid [k] s in
  exists j' out,
    get_job (id job) s' = Some j'
    /\ attempts j' = attempts job + 1
    /\ get_job_output (id job) s' = Some out
    /\ out_id out = id job
    /\ out_stdout_log out = Some (res_stdout (tick_res k))
    /\ out_stderr_log out = Some (res_stderr (tick_res k))
    /\ out_exit_code out = Some (res_exit_code (tick_res k))
    /\ (res_exit_code (tick_res k) = 0 ->
        out_completed_at out = Some (tick_t1 k))
    /\ (res_exit_code (tick_res k) <> 0 ->
        out_completed_at out = completed_at job).
Proof.
  intros PK P. cbv zeta.
  destruct (run_claimed_outcome s s1 pid k job PK P) as (A & B & C & D).
  unfold get_job_output.
  destruct (Z.eq_dec (res_exit_code (tick_res k)) 0) as [Z0|NZ];
    [|destruct (Z_lt_le_dec (attempts job + 1) (max_retries job)) as [L|L];
      [destruct (raises_cases
                   (calculate_retry_at (tick_t1 k) (attempts job + 1)
                      (Config_get_int "backoff_base" s)
                      (Config_get_int "max_backoff_seconds" s)))
         as [(rt & R)|(e & R)]|]].
  - destruct (A Z0) as [H _]. rewrite H. eexists. eexists.
    split; [reflexivity|]. simpl.
    repeat split; try reflexivity; intros; contradiction.
  - destruct (B NZ L rt R) as [H _]. rewrite H. eexists. eexists.
    split; [reflexivity|]. simpl.
    repeat split; try reflexivity; intros; contradiction.
  - destruct (C NZ L e R) as [H _]. rewrite H. eexists. eexists.
    split; [reflexivity|]. simpl.
    repeat split; try reflexivity; intros; contradiction.
  - destruct (D NZ L) as [H _]. rewrite H. eexists. eexists.
    split; [reflexivity|]. simpl.
    repeat split; try reflexivity; intros; contradiction.
Qed.

Lemma process_one_job_stores_output_witness :
  let a := mkJob "a" "echo hi" pending 0 3 100 100 None None 0 None None None
             None None None None None in
  let s := mkStore [a] [] [] in
  let k := mkTick 101 102 (mkExec 0 "hi" "") "u1" in
  exists j' out,
    get_job "a" (run 7 [k] s) = Some j'
    /\ attempts j' = 0 + 1
    /\ get_job_output "a" (run 7 [k] s) = Some out
    /\ out_id out = "a"%string
    /\ out_stdout_log out = Some "hi"%string
    /\ out_stderr_log out = Some ""%string
    /\ out_exit_code out = Some 0
    /\ (0 = 0 -> out_completed_at out = Some 102)
    /\ (0 <> 0 -> out_completed_at out = None).
Proof.
  intros a s k.
  apply (process_one_job_stores_output s
           (update_job "a" (claim_row 7 101) s) 7 k (claim_row 7 101 a)).
  - unfold primary_key. simpl. constructor; [intros []|constructor].
  - reflexivity.
Defined.

(** X11. A scheduled retry is not held back by its [retry_at]: after a
    failed execution that schedules a retry, the retry date being
    representable, the row is eligible for a claim at every time from the
    claim on, whatever the lease, so also at times before the [retry_at]
    just written. *)
Theorem retry_is_claimable_at_once (s s1 : Store) (pid : Z) (k : Tick)
  (job : Job) :
  primary_key s ->
  pick_pending_job pid (Config_get_int "lock_lease_seconds" s) (tick_t0 k) s
  = (Some job, s1) ->
  res_exit_code (tick_res k) <> 0 ->
  attempts job + 1 < max_retries job ->
  retry_date_representable (tick_t1 k)
    (calculate_backoff (attempts job + 1) (Config_get_int "backoff_base" s)
       (Config_get_int "max_backoff_seconds" s)) ->
  exists j',
    get_job (id job) (run pid [k] s) = Some j'
    /\ retry_at j'
       = Some (tick_t1 k
               + calculate_backoff (attempts job + 1)
                   (Config_get_int "backoff_base" s)
                   (Config_get_int "max_backoff_seconds" s))
    /\ forall lease now,
         tick_t0 k <= now -> pick_where lease now j' = true.
Proof.
  intros PK P NZ L Rep.
  destruct (pick_pending_job_claims s s1 pid _ _ job PK P)
    as (row & I & W & J & S1 & G).
  destruct (run_claimed_outcome s s1 pid k job PK P) as (_ & B & _).
  destruct (B NZ L _ (calculate_retry_at_returns _ _ _ _ Rep)) as [H _].
  eexists. split; [exact H|].
  split; [reflexivity|].
  intros lease now T. unfold pick_where. simpl.
  unfold pick_where in W. rewrite !andb_true_iff in W.
  destruct W as [[_ R] _]. subst job. simpl.
  destruct (run_at row) as [t|]; [|reflexivity].
  apply Z.leb_le in R. rewrite andb_true_r. apply Z.leb_le. lia.
Qed.

Lemma retry_is_claimable_at_once_witness :
  let a := mkJob "a" "exit 1" pending 0 3 100 100 None None 0 None None None
             None None None None None in
  let s := mkStore [a] [] [] in
  let k := mkTick 101 102 (mkExec 1 "" "boom") "u1" in
  exists j',
    get_job "a" (run 7 [k] s) = Some j'
    /\ retry_at j' = Some (102 + calculate_backoff (0 + 1) 2 300)
    /\ forall lease now, 101 <= now -> pick_where lease now j' = true.
Proof.
  intros a s k.
  apply (retry_is_claimable_at_once s
           (update_job "a" (claim_row 7 101) s) 7 k (claim_row 7 101 a)).
  - unfold primary_key. simpl. constructor; [intros []|constructor].
  - reflexivity.
  - simpl. lia.
  - simpl. lia.
  - vm_compute. repeat split; intros E; discriminate E.
Defined.

(** ** A retry date that cannot be computed *)

(** X22. When an execution fails with retries left and the retry date is
    not representable, [calculate_retry_at] raises, the handler of
    [_process_one_job] raises the same exception again, and the iteration
    ends with it: the job is left processing and locked by the worker, with
    the attempt counted, [retry_at] as before, the text of the exception in
    [last_error] and no dead-letter entry; it is not eligible for a claim
    at any time, and no later iteration of the worker changes it. *)
Theorem retry_overflow_keeps_job_locked (s s1 : Store) (pid : Z) (k : Tick)
  (job : Job) :
  primary_key s ->
  pick_pending_job pid (Config_get_int "lock_lease_seconds" s) (tick_t0 k) s
  = (Some job, s1) ->
  res_exit_code (tick_res k) <> 0 ->
  attempts job + 1 < max_retries job ->
  ~ retry_date_representable (tick_t1 k)
      (calculate_backoff (attempts job + 1) (Config_get_int "backoff_base" s)
         (Config_get_int "max_backoff_seconds" s)) ->
  exists j' e,
    calculate_retry_at (tick_t1 k) (attempts job + 1)
      (Config_get_int "backoff_base" s)
      (Config_get_int "max_backoff_seconds" s) = Raised e
    /\ snd (_process_one_job pid (tick_t0 k) (tick_t1 k) (tick_res k)
              (tick_uuid k) s) = Some e
    /\ get_job (id job) (run pid [k] s) = Some j'
    /\ state j' = processing
    /\ locked_by j' = Some pid /\ locked_at j' = Some (tick_t0 k)
    /\ attempts j' = attempts job + 1 /\ retry_at j' = retry_at job
    /\ last_error j' = Some e
    /\ dlq (run pid [k] s) = dlq s
    /\ (forall lease now, pick_where lease now j' = false)
    /\ (forall ticks,
          get_job (id job) (run pid ticks (run pid [k] s)) = Some j').
Proof.
  intros PK P NZ L NRep.
  destruct (calculate_retry_at_raised _ _ _ _ NRep) as [e R].
  destruct (pick_pending_job_claims s s1 pid _ _ job PK P)
    as (row & I & W & J & S1 & G).
  destruct (run_claimed_outcome s s1 pid k job PK P) as (_ & _ & C & _).
  destruct (C NZ L e R) as [H D].
  assert (PK' : primary_key (run pid [k] s))
    by (simpl run; now apply process_one_job_primary_key).
  eexists. exists e. split; [exact R|]. split.
  - destruct (execute_and_handle job job (tick_t0 k) (tick_t1 k) (tick_res k)
                (tick_uuid k) s1 G) as (_ & _ & C' & _).
    assert (R' : calculate_retry_at (tick_t1 k) (attempts job + 1)
                   (Config_get_int "backoff_base" s1)
                   (Config_get_int "max_backoff_seconds" s1) = Raised e)
      by (rewrite S1; exact R).
    unfold _process_one_job. rewrite P. cbv zeta.
    now rewrite (C' NZ L e R').
  - split; [exact H|]. subst job.
    repeat (split; [reflexivity|]). split; [exact D|]. split.
    + intros lease now. reflexivity.
    + intros ticks.
      apply run_keeps_row; [exact PK' | exact H | discriminate].
Qed.

Lemma retry_overflow_keeps_job_locked_witness :
  let a := mkJob "a" "exit 1" pending 0 3 100 100 None None 0 None None None
             None None None None None in
  let cfg := [("backoff_base"%string, 1000000000000);
              ("max_backoff_seconds"%string, 10000000000000)] in
  let s := mkStore [a] [] cfg in
  let k := mkTick 101 102 (mkExec 1 "" "boom") "u1" in
  exists j' e,
    calculate_retry_at 102 (0 + 1) 1000000000000 10000000000000 = Raised e
    /\ snd (_process_one_job 7 101 102 (mkExec 1 "" "boom") "u1" s) = Some e
    /\ get_job "a" (run 7 [k] s) = Some j'
    /\ state j' = processing
    /\ locked_by j' = Some 7 /\ locked_at j' = Some 101
    /\ attempts j' = 0 + 1 /\ retry_at j' = None
    /\ last_error j' = Some e
    /\ dlq (run 7 [k] s) = []
    /\ (forall lease now, pick_where lease now j' = false)
    /\ (forall ticks, get_job "a" (run 7 ticks (run 7 [k] s)) = Some j').
Proof.
  intros a cfg s k.
  apply (retry_overflow_keeps_job_locked s
           (update_job "a" (claim_row 7 101) s) 7 k (claim_row 7 101 a)).
  - unfold primary_key. simpl. constructor; [intros []|constructor].
  - reflexivity.
  - simpl. lia.
  - simpl. lia.
  - intros [_ [_ H]]. apply H. vm_compute. reflexivity.
Defined.

(** ** A job whose command always fails *)







(** ** Requeue in a reachable store *)

Lemma invariants_exec (cfg : list (string * Z)) (ops : list Op) :
  store_ok (exec ops (mkStore [] [] cfg))
  /\ dead_letter_invariant (exec ops (mkStore [] [] cfg)).
Proof.
  split; [apply store_ok_exec|].
  assert (G : forall s, dead_letter_invariant s ->
                        dead_letter_invariant (exec ops s)).
  { induction ops as [|o ops IH]; intros s INV; simpl; [exact INV|].
    apply IH. now apply invariant_apply_op. }
  apply G. split; simpl; intros ? [].
Qed.

Lemma dlq_count_in (x : string) (l : list DlqEntry) (e : DlqEntry) :
  In e l -> dlq_job_id e = x -> dlq_count x l <> 0%nat.
Proof.
  intros I E. unfold dlq_count.
  assert (K : In e (filter (dlq_for x) l)).
  { apply filter_In. split; [exact I|]. unfold dlq_for.
    now apply String.eqb_eq. }
  destruct (filter (dlq_for x) l); [contradiction | discriminate].
Qed.

(** X13. In every store reached from empty tables by enqueues, worker
    iterations, requeues and the two maintenance updates,
    [requeue_from_dlq] returns [True] exactly for the jobs that are dead:
    a dead job can always be requeued, and no other job ever can. *)
Theorem requeue_succeeds_iff_dead (cfg : list (string * Z)) (ops : list Op)
  (job_id : string) (now : Time) :
  let s := exec ops (mkStore [] [] cfg) in
  fst (requeue_from_dlq job_id now s) = true
  <-> exists j, get_job job_id s = Some j /\ state j = dead.
Proof.
  cbv zeta. destruct (invariants_exec cfg ops) as [[PK _] [C FK]].
  set (s := exec ops (mkStore [] [] cfg)) in *.
  unfold requeue_from_dlq. split.
  - destruct (get_dlq_job job_id s) as [e|] eqn:G; [|discriminate].
    intros _. unfold get_dlq_job, sql_fetchone in G. apply find_some in G.
    destruct G as [Ie E]. unfold dlq_for in E. apply String.eqb_eq in E.
    destruct (FK e Ie) as (j & Ij & Ej). exists j. split.
    + rewrite <- E, <- Ej. now apply get_job_in.
    + pose proof (C j Ij) as Cj.
      destruct (state_eqb (state j) dead) eqn:D; [now apply state_eqb_eq|].
      exfalso. apply (dlq_count_in (id j) (dlq s) e Ie); congruence.
  - intros (j & G & D). apply get_job_some in G. destruct G as [Ij Ej].
    destruct (get_dlq_job job_id s) eqn:Q; [reflexivity|].
    exfalso. rewrite get_dlq_job_none in Q.
    pose proof (C j Ij) as Cj. rewrite D, Ej in Cj. simpl in Cj.
    rewrite (dlq_count_none _ _ Q) in Cj. discriminate.
Qed.

(** ** Configuration *)

Lemma lookup_none (key : string) (tbl : list (string * Z)) :
  lookup key tbl = None <-> ~ In key (map fst tbl).
Proof.
  induction tbl as [|[k v] tbl IH]; simpl; [tauto|].
  destruct (String.eqb k key) eqn:E.
  - apply String.eqb_eq in E. split; [discriminate|]. intros N. exfalso.
    apply N. now left.
  - apply String.eqb_neq in E. rewrite IH. tauto.
Qed.

Lemma lookup_sql_update (key k : string) (v : Z) (tbl : list (string * Z)) :
  lookup k (sql_update (key_is key) (fun r => (fst r, v)) tbl)
  = if String.eqb k key
    then match lookup k tbl with Some _ => Some v | None => None end
    else lookup k tbl.
Proof.
  induction tbl as [|[k0 v0] tbl IH]; simpl.
  - now destruct (String.eqb k key).
  - unfold key_is at 1. simpl.
    destruct (String.eqb k0 key) eqn:E0; simpl;
      destruct (String.eqb k0 k) eqn:E1.
    + apply String.eqb_eq in E0, E1.
      assert (X : String.eqb k key = true) by (apply String.eqb_eq; congruence).
      now rewrite X.
    + exact IH.
    + apply String.eqb_eq in E1. subst k0. now rewrite E0.
    + exact IH.
Qed.

Lemma lookup_app (k : string) (a b : list (string * Z)) :
  lookup k (a ++ b)
  = match lookup k a with Some v => Some v | None => lookup k b end.
Proof.
  induction a as [|[k0 v0] a IH]; simpl; [reflexivity|].
  destruct (String.eqb k0 k); [reflexivity | exact IH].
Qed.

Lemma rowcount_zero_lookup (key : string) (tbl : list (string * Z)) :
  sql_rowcount (key_is key) tbl = 0 <-> lookup key tbl = None.
Proof.
  unfold sql_rowcount. induction tbl as [|[k v] tbl IH]; simpl; [tauto|].
  unfold key_is at 1. simpl. destruct (String.eqb k key); simpl.
  - split; [lia | discriminate].
  - exact IH.
Qed.

Lemma lookup_Config_set (key k : string) (v : Z) (s : Store) :
  lookup k (config (Config_set key v s))
  = if String.eqb k key then Some v else lookup k (config s).
Proof.
  unfold Config_set.
  destruct (Z.eqb_spec (sql_rowcount (key_is key) (config s)) 0) as [E|N];
    simpl.
  - apply rowcount_zero_lookup in E. rewrite lookup_app, lookup_sql_update.
    simpl. destruct (String.eqb k key) eqn:K.
    + apply String.eqb_eq in K. subst k. rewrite E.
      now rewrite String.eqb_refl.
    + rewrite String.eqb_sym, K. now destruct (lookup k (config s)).
  - rewrite lookup_sql_update. destruct (String.eqb k key) eqn:K;
      [|reflexivity].
    apply String.eqb_eq in K. subst k.
    destruct (lookup key (config s)) eqn:L; [reflexivity|].
    apply rowcount_zero_lookup in L. contradiction.
Qed.

(** X15. After [Config.set(key, value)], [Config.get(key)] returns the
    value and [Config.get] of every other key returns what it did before;
    jobs and dead letters are untouched; the table keeps one row per key;
    and setting the same key again replaces the value rather than adding a
    row. *)
Theorem Config_set_get (key : string) (value : Z) (s : Store) :
  Config_get key (Config_set key value s) = Some value
  /\ (forall k, k <> key ->
                Config_get k (Config_set key value s) = Config_get k s)
  /\ jobs (Config_set key value s) = jobs s
  /\ dlq (Config_set key value s) = dlq s
  /\ (config_key s -> config_key (Config_set key value s))
  /\ (forall value',
        List.length (config (Config_set key value' (Config_set key value s)))
        = List.length (config (Config_set key value s))).
Proof.
  split; [|split; [|split; [|split; [|split]]]].
  - unfold Config_get. now rewrite lookup_Config_set, String.eqb_refl.
  - intros k N. unfold Config_get. rewrite lookup_Config_set.
    apply String.eqb_neq in N. now rewrite N.
  - unfold Config_set. now destruct (_ =? 0).
  - unfold Config_set. now destruct (_ =? 0).
  - unfold config_key, Config_set. intros ND.
    assert (M : map fst (sql_update (key_is key) (fun r => (fst r, value))
                           (config s)) = map fst (config s)).
    { unfold sql_update. rewrite map_map. apply map_ext. intros r.
      now destruct (key_is key r). }
    destruct (Z.eqb_spec (sql_rowcount (key_is key) (config s)) 0) as [E|N];
      simpl.
    + rewrite map_app, M. simpl. apply NoDup_app; [exact ND| |].
      * constructor; [intros []|constructor].
      * intros x Ix [<-|[]]. apply rowcount_zero_lookup, lookup_none in E.
        contradiction.
    + now rewrite M.
  - intros value'.
    assert (P : sql_rowcount (key_is key) (config (Config_set key value s))
                <> 0).
    { intros Z0. apply rowcount_zero_lookup in Z0.
      rewrite lookup_Config_set, String.eqb_refl in Z0. discriminate. }
    unfold Config_set at 1. apply Z.eqb_neq in P. rewrite P. simpl.
    unfold sql_update. apply length_map.
Qed.

Lemma lookup_dict_setitem (key k : string) (v : Z) (d : list (string * Z)) :
  lookup k (dict_setitem key v d)
  = if String.eqb k key then Some v else lookup k d.
Proof.
  induction d as [|[k0 v0] d IH]; simpl.
  - rewrite String.eqb_sym. now destruct (String.eqb k key).
  - destruct (String.eqb k0 key) eqn:E0; simpl.
    + apply String.eqb_eq in E0. subst k0.
      rewrite (String.eqb_sym k key). now destruct (String.eqb key k).
    + destruct (String.eqb k0 k) eqn:E1; [|exact IH].
      apply String.eqb_eq in E1. subst k0. now rewrite E0.
Qed.

Lemma lookup_dict_of_rows (k : string) (rows d : list (string * Z)) :
  NoDup (map fst rows) ->
  lookup k (fold_left (fun d row => dict_setitem (fst row) (snd row) d) rows d)
  = match lookup k rows with Some v => Some v | None => lookup k d end.
Proof.
  revert d. induction rows as [|[k0 v0] rows IH]; intros d ND; simpl;
    [reflexivity|].
  inversion ND as [|? ? NI ND']; subst. rewrite (IH _ ND').
  rewrite lookup_dict_setitem. simpl.
  rewrite (String.eqb_sym k k0).
  destruct (String.eqb k0 k) eqn:E; [|reflexivity].
  apply String.eqb_eq in E. subst k0.
  apply lookup_none in NI. now rewrite NI.
Qed.

Lemma lookup_merge_defaults (k : string) (defaults d : list (string * Z)) :
  NoDup (map fst defaults) ->
  lookup k
    (fold_left
       (fun d kv =>
          match lookup (fst kv) d with
          | Some _ => d
          | None => dict_setitem (fst kv) (snd kv) d
          end) defaults d)
  = match lookup k d with Some v => Some v | None => lookup k defaults end.
Proof.
  revert d. induction defaults as [|[k0 v0] defaults IH]; intros d ND; simpl.
  - now destruct (lookup k d).
  - inversion ND as [|? ? NI ND']; subst. rewrite (IH _ ND'). simpl.
    destruct (lookup k0 d) eqn:L0.
    + destruct (lookup k d) eqn:L; [reflexivity|].
      destruct (String.eqb k0 k) eqn:E; [|reflexivity].
      apply String.eqb_eq in E. subst k0. congruence.
    + rewrite lookup_dict_setitem. rewrite (String.eqb_sym k k0).
      destruct (String.eqb k0 k) eqn:E.
      * apply String.eqb_eq in E. subst k0. now rewrite L0.
      * reflexivity.
Qed.

(** X16. With one row per key in table [config], the dictionary returned by
    [Config.get_all] holds for every key exactly what [Config.get] returns
    for it: the stored value if there is one, else the default, else
    nothing. *)
Theorem Config_get_all_get (s : Store) (key : string) :
  config_key s -> lookup key (Config_get_all s) = Config_get key s.
Proof.
  intros ND. unfold Config_get_all, Config_get.
  rewrite lookup_merge_defaults.
  - rewrite (lookup_dict_of_rows key (config s) [] ND). simpl.
    now destruct (lookup key (config s)).
  - simpl. repeat constructor; simpl; intuition discriminate.
Qed.

Lemma Config_get_all_get_witness :
  let s := mkStore [] [] [("backoff_base"%string, 5); ("x"%string, 1)] in
  lookup "backoff_base" (Config_get_all s) = Config_get "backoff_base" s.
Proof.
  intros s. apply (Config_get_all_get s "backoff_base").
  unfold config_key. simpl. constructor.
  - simpl. intros [E|[]]. discriminate E.
  - constructor; [intros []|constructor].
Defined.

(** ** Counting jobs by state *)

Lemma sql_rowcount_cons {A : Type} (w : A -> bool) (r : A) (rows : list A) :
  sql_rowcount w (r :: rows)
  = (if w r then 1 else 0) + sql_rowcount w rows.
Proof.
  unfold sql_rowcount. simpl filter. destruct (w r); [|reflexivity].
  rewrite length_cons. lia.
Qed.

Lemma rowcount_by_state (rows : list Job) :
  sql_rowcount (in_state pending) rows
  + sql_rowcount (in_state processing) rows
  + sql_rowcount (in_state completed) rows
  + sql_rowcount (in_state failed) rows
  + sql_rowcount (in_state dead) rows
  = Z.of_nat (List.length rows).
Proof.
  induction rows as [|j rows IH]; [reflexivity|].
  rewrite !sql_rowcount_cons, length_cons, Nat2Z.inj_succ, <- IH.
  unfold in_state. destruct (state j); simpl state_eqb; lia.
Qed.


Lemma sql_rowcount_nonneg {A : Type} (w : A -> bool) (rows : list A) :
  0 <= sql_rowcount w rows.
Proof. unfold sql_rowcount. lia. Qed.

Lemma sql_rowcount_pos_in {A : Type} (w : A -> bool) (rows : list A) :
  0 < sql_rowcount w rows <-> exists r, In r rows /\ w r = true.
Proof.
  unfold sql_rowcount. split.
  - destruct (filter w rows) as [|r l] eqn:F; simpl; [lia|].
    intros _. exists r. apply filter_In. rewrite F. now left.
  - intros (r & I & W).
    assert (K : In r (filter w rows)) by (apply filter_In; now split).
    destruct (filter w rows); [contradiction|]. simpl List.length. lia.
Qed.

Lemma counts_get_job_counts (s : Store) (st : JobState) :
  counts_get st (get_job_counts s) = sql_rowcount (in_state st) (jobs s).
Proof.
  unfold get_job_counts, all_states. simpl map.
  pose proof (sql_rowcount_nonneg (in_state pending) (jobs s)).
  pose proof (sql_rowcount_nonneg (in_state processing) (jobs s)).
  pose proof (sql_rowcount_nonneg (in_state completed) (jobs s)).
  pose proof (sql_rowcount_nonneg (in_state failed) (jobs s)).
  pose proof (sql_rowcount_nonneg (in_state dead) (jobs s)).
  simpl filter.
  destruct (Z.ltb_spec 0 (sql_rowcount (in_state pending) (jobs s)));
  destruct (Z.ltb_spec 0 (sql_rowcount (in_state processing) (jobs s)));
  destruct (Z.ltb_spec 0 (sql_rowcount (in_state completed) (jobs s)));
  destruct (Z.ltb_spec 0 (sql_rowcount (in_state failed) (jobs s)));
  destruct (Z.ltb_spec 0 (sql_rowcount (in_state dead) (jobs s)));
  destruct st; simpl; lia.
Qed.

(** X17. In the dictionary of [get_job_counts] the count found for a state,
    with 0 for a missing key, is the number of jobs in that state; a state
    is a key exactly when some job is in it; and the five counts add up to
    the number of jobs. *)
Theorem get_job_counts_total (s : Store) :
  (forall st, counts_get st (get_job_counts s)
              = Z.of_nat (List.length (filter (in_state st) (jobs s))))
  /\ (forall st, In st (map fst (get_job_counts s))
                 <-> exists j, In j (jobs s) /\ state j = st)
  /\ fold_right Z.add 0
       (map (fun st => counts_get st (get_job_counts s)) all_states)
     = Z.of_nat (List.length (jobs s)).
Proof.
  split; [intros st; apply counts_get_job_counts|]. split.
  - intros st. unfold get_job_counts. rewrite in_map_iff. split.
    + intros ([k v] & E & I). simpl in E. subst k.
      apply filter_In in I. destruct I as [I P]. simpl in P.
      apply in_map_iff in I. destruct I as (st' & [= <- <-] & _).
      apply Z.ltb_lt, sql_rowcount_pos_in in P.
      destruct P as (j & Ij & W). exists j. split; [exact Ij|].
      now apply state_eqb_eq.
    + intros (j & Ij & E).
      exists (st, sql_rowcount (in_state st) (jobs s)). split; [reflexivity|].
      apply filter_In. split.
      * apply in_map_iff. exists st. split; [reflexivity|].
        unfold all_states. destruct st; simpl; tauto.
      * simpl. apply Z.ltb_lt, sql_rowcount_pos_in. exists j.
        split; [exact Ij|]. now apply state_eqb_eq.
  - unfold all_states. simpl. rewrite !counts_get_job_counts.
    rewrite <- (rowcount_by_state (jobs s)). lia.
Qed.


(** ** Listing jobs *)

Section OrderBySorted.

Variable le : Job -> Job -> bool.
Hypothesis le_total : forall a b, le a b = true \/ le b a = true.
Hypothesis le_trans :
  forall a b c, le a b = true -> le b c = true -> le a c = true.



End OrderBySorted.











(** ** Deleting a job *)

Lemma find_delete_other (x y : string) (rows : list Job) :
  x <> y ->
  find (id_is x) (sql_delete (id_is y) rows) = find (id_is x) rows.
Proof.
  intros N. unfold sql_delete.
  induction rows as [|r rows IH]; simpl; [reflexivity|].
  destruct (id_is y r) eqn:E; simpl.
  - unfold id_is in E. apply String.eqb_eq in E.
    assert (X : id_is x r = false)
      by (unfold id_is; apply String.eqb_neq; congruence).
    now rewrite X.
  - destruct (id_is x r); [reflexivity | exact IH].
Qed.

(** X20. [delete_job] fails exactly when the job has a row and a
    dead-letter entry refers to it.  When it succeeds the job has no row
    any more, every other job and the dead-letter table are as before, and
    the invariant that ties dead jobs to their dead-letter entries is
    kept. *)
Theorem delete_job_result (job_id : string) (s : Store) :
  (delete_job job_id s = None
   <-> (exists j, In j (jobs s) /\ id j = job_id)
       /\ (exists e, In e (dlq s) /\ dlq_job_id e = job_id))
  /\ forall s',
       delete_job job_id s = Some s' ->
       get_job job_id s' = None
       /\ (forall x, x <> job_id -> get_job x s' = get_job x s)
       /\ dlq s' = dlq s /\ config s' = config s
       /\ (dead_letter_invariant s -> dead_letter_invariant s').
Proof.
  unfold delete_job.
  assert (EJ : existsb (id_is job_id) (jobs s) = true
               <-> exists j, In j (jobs s) /\ id j = job_id).
  { rewrite existsb_exists. unfold id_is.
    split; intros (j & I & E); exists j; split; try assumption;
      now apply String.eqb_eq. }
  assert (ED : existsb (dlq_for job_id) (dlq s) = true
               <-> exists e, In e (dlq s) /\ dlq_job_id e = job_id).
  { rewrite existsb_exists. unfold dlq_for.
    split; intros (e & I & E); exists e; split; try assumption;
      now apply String.eqb_eq. }
  split.
  - destruct (existsb (id_is job_id) (jobs s)) eqn:A,
             (existsb (dlq_for job_id) (dlq s)) eqn:B; simpl;
      rewrite <- EJ, <- ED; split; try discriminate; try tauto;
      intros [? ?]; discriminate.
  - intros s' D.
    assert (E : s' = with_jobs s (sql_delete (id_is job_id) (jobs s))
                /\ (existsb (id_is job_id) (jobs s) = false
                    \/ existsb (dlq_for job_id) (dlq s) = false)).
    { destruct (existsb (id_is job_id) (jobs s)),
               (existsb (dlq_for job_id) (dlq s)); simpl in D;
        try discriminate; injection D as <-; auto. }
    destruct E as [-> Free]. clear D.
    assert (InD : forall j, In j (sql_delete (id_is job_id) (jobs s))
                            <-> In j (jobs s) /\ id j <> job_id).
    { intros j. unfold sql_delete. rewrite filter_In. unfold id_is.
      now rewrite negb_true_iff, String.eqb_neq. }
    split; [|split; [|split; [reflexivity|split; [reflexivity|]]]].
    + apply get_job_none. simpl. intros j I. now apply InD in I.
    + intros x N. apply (find_delete_other x job_id (jobs s) N).
    + intros [C FK]. split; simpl.
      * intros j I. apply InD in I. now apply C.
      * intros e Ie. destruct (FK e Ie) as (j & Ij & Ej).
        exists j. split; [|exact Ej]. apply InD. split; [exact Ij|].
        intros X. destruct Free as [F|F].
        -- assert (T : existsb (id_is job_id) (jobs s) = true)
             by (apply EJ; now exists j).
           congruence.
        -- assert (T : existsb (dlq_for job_id) (dlq s) = true)
             by (apply ED; exists e; split; [exact Ie | congruence]).
           congruence.
Qed.

(** ** Enqueueing from the command line *)

